(** * ell: a shallow embedding of the task object, its result slot and the
      thread-local current-loop accessors.

    Sources embedded here:
    - [src/details/result_holder.hpp]  ([ResultHolderImpl], [ResultHolder])
    - [src/details/task_impl.hpp]      ([TaskImpl])
    - [src/ell.hpp]                    ([set_current_event_loop],
                                        [get_current_event_loop], [yield], [sleep])

    C++ exceptions, assertion failures and undefined behaviour are made
    explicit as results; the stackful coroutine of a task is a small state
    machine whose states are the points at which the coroutine function of
    [setup_coroutine] can be stopped. *)

From Stdlib Require Import ZArith List String Bool Lia.
Import ListNotations.
Local Open Scope string_scope.
Local Open Scope list_scope.
Local Open Scope Z_scope.

Set Implicit Arguments.

(* ===================================================================== *)
(** ** Failures                                                           *)
(* ===================================================================== *)

(** What a C++ [throw] can carry, as far as the code below can tell the
    cases apart: the handler of [setup_coroutine] is
    [catch (const std::exception &)]. *)
Inductive exception : Type :=
| Cancelled                          (* ex::Cancelled *)
| StdException (what : string)       (* any other class derived from std::exception *)
| Foreign (payload : Z).             (* a thrown object of another type, e.g. [throw 42;] *)

(** Modelled from the spec: [exceptions/cancelled.hpp], which declares
    [ex::Cancelled], is not part of the sources at hand; the spec says that a
    [Cancelled] that reaches the top frame of the coroutine is stored in the
    result slot, so [ex::Cancelled] is taken to derive from [std::exception].
    The other two cases are what [catch (const std::exception &)] matches
    and what it does not. *)
Definition is_std_exception (e : exception) : bool :=
  match e with
  | Cancelled => true
  | StdException _ => true
  | Foreign _ => false
  end.

(** Ways in which execution stops for good. *)
Inductive fault : Type :=
| AssertionFailed (msg : string)     (* assert / ELL_ASSERT *)
| Terminated (e : exception)         (* an exception left the coroutine function *)
| Undefined (what : string).         (* undefined behaviour *)

(** Result of a call that may return, throw, or stop the program. *)
Inductive result (A : Type) : Type :=
| Value (a : A)
| Throws (e : exception)
| Fault (f : fault).
Arguments Value {A} a.
Arguments Throws {A} e.
Arguments Fault {A} f.

(** Modelled from the spec: [details/ell_assert.hpp] (the macro [ELL_ASSERT])
    is not part of the sources at hand; the spec makes an invariant violation
    fatal, so a failed [ELL_ASSERT(cond, msg)] stops the program with [msg]. *)
Definition ELL_ASSERT {A : Type} (cond : bool) (msg : string) (k : result A) : result A :=
  if cond then k else Fault (AssertionFailed msg).

(** [assert] of <cassert>, reported with the text of its expression. *)
Definition c_assert {A : Type} (cond : bool) (expr : string) (k : result A) : result A :=
  if cond then k else Fault (AssertionFailed expr).

(* ===================================================================== *)
(** ** What the templates ask of a type                                   *)
(* ===================================================================== *)

(** [sizeof(T)], [alignof(T)], whether [~T()] is trivial, and the state a [T]
    is left in once it has been the source of a move construction. *)
Class CppType (T : Type) : Type := {
  sizeof : Z;
  alignof : Z;
  trivially_destructible : bool;
  moved_from : T -> T
}.
Arguments sizeof T {_}.
Arguments alignof T {_}.
Arguments trivially_destructible T {_}.

(** [int]: four bytes, copied by a move. *)
#[export] Instance int_CppType : CppType Z := {
  sizeof := 4;
  alignof := 4;
  trivially_destructible := true;
  moved_from := fun v => v
}.

(** [struct { uint64_t w[8]; }]: sixty-four bytes of plain data. *)
Inductive block64 : Type := Block64 (w : list Z).

#[export] Instance block64_CppType : CppType block64 := {
  sizeof := 64;
  alignof := 8;
  trivially_destructible := true;
  moved_from := fun v => v
}.

(** [std::unique_ptr<int>]: a move leaves the source null. *)
Inductive unique_int : Type := UniqueInt (pointee : option Z).

#[export] Instance unique_int_CppType : CppType unique_int := {
  sizeof := 8;
  alignof := 8;
  trivially_destructible := false;
  moved_from := fun _ => UniqueInt None
}.

(* ===================================================================== *)
(** ** result_holder.hpp                                                  *)
(* ===================================================================== *)

Module ResultHolderImpl.

(** The bytes of [storage_]: raw, holding a live [T], or holding a [T]
    whose non-trivial destructor has run. *)
Inductive storage (T : Type) : Type :=
| Raw
| Holds (v : T)
| Destroyed.
Arguments Raw {T}.
Arguments Destroyed {T}.

(** The pointer owned by [obj_]: null, the address of [storage_], or a
    heap object obtained from [new]. *)
Inductive erased_ptr (T : Type) : Type :=
| nullptr
| to_storage
| to_heap (v : T).
Arguments nullptr {T}.
Arguments to_storage {T}.

Record t (T : Type) : Type := Make {
  storage_ : storage T;
  eptr_ : option exception;
  obj_ : erased_ptr T
}.

(** [ResultHolderImpl()]: no exception, [obj_] null. *)
Definition empty {T : Type} : t T :=
  {| storage_ := Raw; eptr_ := None; obj_ := nullptr |}.

Section Impl.
(** Template parameters of [ResultHolderImpl] and of [store] / [get]. *)
Variables buffer_size_ align_ : Z.
Context {T : Type} `{CppType T}.

(** [static_assert(alignof(T) <= align_, ...)] in [store]. *)
Definition store_instantiable : bool := alignof T <=? align_.

(** Which branch of [store] the size of [T] selects. *)
Definition fits_inline : bool := sizeof T <=? buffer_size_.

(** The deleter of the pointer that [obj_] held so far, run by the
    assignment to [obj_] on that old pointer. A deleter installed by the
    inline branch calls the destructor on the bytes of [storage_]. *)
Definition run_old_deleter (old : erased_ptr T) (s : storage T) : storage T :=
  match old with
  | nullptr => s
  | to_storage =>
      match s with
      | Holds v => if trivially_destructible T then Holds v else Destroyed
      | other => other
      end
  | to_heap _ => s
  end.

(** [template <typename T> void store(T &&obj)] *)
Definition store (obj : T) (h : t T) : t T :=
  if fits_inline then
    let constructed := Holds obj in
    {| storage_ := run_old_deleter (obj_ h) constructed;
       eptr_ := eptr_ h;
       obj_ := to_storage |}
  else
    {| storage_ := run_old_deleter (obj_ h) (storage_ h);
       eptr_ := eptr_ h;
       obj_ := to_heap obj |}.

(** [void store_exception(std::exception_ptr eptr)] *)
Definition store_exception (eptr : exception) (h : t T) : result (t T) :=
  c_assert (match eptr_ h with None => true | Some _ => false end)
    "eptr_ == nullptr"
    (Value {| storage_ := storage_ h; eptr_ := Some eptr; obj_ := obj_ h |}).

(** [template <typename T> T get()]: rethrow a stored exception, else
    move-construct the answer from the object [obj_] points to. Neither
    [eptr_] nor [obj_] is reset. *)
Definition get (h : t T) : result T * t T :=
  match eptr_ h with
  | Some e => (Throws e, h)
  | None =>
      match obj_ h with
      | nullptr => (Fault (Undefined "read through a null obj_"), h)
      | to_storage =>
          match storage_ h with
          | Holds v =>
              (Value v,
               {| storage_ := Holds (moved_from v); eptr_ := None; obj_ := to_storage |})
          | Raw | Destroyed =>
              (Fault (Undefined "read of an object that is not alive"), h)
          end
      | to_heap v =>
          (Value v,
           {| storage_ := storage_ h; eptr_ := None; obj_ := to_heap (moved_from v) |})
      end
  end.


Definition holds_value (h : t T) : bool :=
  match obj_ h with
  | nullptr => false
  | _ => true
  end.

Definition holds_failure (h : t T) : bool :=
  match eptr_ h with
  | Some _ => true
  | None => false
  end.
End Impl.

End ResultHolderImpl.

(** [using ResultHolder = ResultHolderImpl<32, 8>;] *)
Module ResultHolder.
Definition t := ResultHolderImpl.t.
Definition buffer_size_ : Z := 32.
Definition align_ : Z := 8.
Definition empty {T : Type} : t T := ResultHolderImpl.empty.
Definition store_instantiable (T : Type) `{CppType T} : bool :=
  ResultHolderImpl.store_instantiable align_ (T := T).
Arguments store_instantiable T {_}.
Definition store {T : Type} `{CppType T} := ResultHolderImpl.store buffer_size_ (T := T).
Definition store_exception {T : Type} := @ResultHolderImpl.store_exception T.
Definition get {T : Type} `{CppType T} := ResultHolderImpl.get (T := T).
End ResultHolder.

(* ===================================================================== *)
(** ** task_impl.hpp                                                      *)
(* ===================================================================== *)

(** User code as the coroutine sees it: a callable returns a value, throws,
    does something observable, or reaches [TaskImpl::suspend] (through
    [ell::yield], [ell::sleep] or a primitive). The second argument of
    [Suspend] is how the callable goes on when [suspend] throws [Cancelled]
    at this call site: the handler of the enclosing [try] of the callable,
    or [Throw Cancelled] when the callable catches nothing there, so that
    the exception unwinds to the top frame of the coroutine. *)
Inductive code (T : Type) : Type :=
| Return (v : T)
| Throw (e : exception)
| Emit (n : Z) (k : code T)
| Suspend (k : code T) (on_cancel : code T).
Arguments Throw {T} e.

(** Where the coroutine function of [setup_coroutine] stands. *)
Inductive coroutine (T : Type) : Type :=
| NotACoroutine                                  (* default-constructed call_type *)
| Created (callable_cpy : code T)                (* constructed, never entered *)
| EntryBarrier (callable_cpy : code T)           (* stopped in the lambda's first yield() *)
| InSuspend (k : code T) (on_cancel : code T)    (* stopped in the yield of suspend() *)
| Complete.                                      (* the coroutine function returned *)
Arguments NotACoroutine {T}.
Arguments Complete {T}.

(** What one stretch of coroutine execution lets an observer see. *)
Inductive event (T : Type) : Type :=
| UserAction (n : Z)                 (* the callable ran an [Emit] *)
| CancelledThrown                    (* [throw ex::Cancelled()] of suspend() *)
| CallableReturned (v : T)           (* [callable()] returned [v] *)
| CallableThrew (e : exception).     (* an exception reached the lambda's try block *)
Arguments UserAction {T} n.
Arguments CancelledThrown {T}.
Arguments CallableThrew {T} e.

(** How control comes back to the caller of [coroutine_()]. *)
Inductive transfer : Type :=
| Yielded
| Finished
| Halted (f : fault).

Module TaskImpl.

(** [unsigned int] is taken to be 32 bits wide, [uint64_t] is 64. *)
Definition UINT_MODULUS : Z := 2 ^ 32.
Definition UINT64_MAX : Z := 2 ^ 64 - 1.

(** The data members, in declaration order. [wait_handler_] is left out:
    its type comes from [details/wait_handler.hpp] and no member function
    below reads or writes it. [yield_] is [true] once it points to the
    coroutine's yield object. *)
Record t (T : Type) : Type := Make {
  coroutine_ : coroutine T;
  yield_ : bool;
  result_ : ResultHolder.t T;
  wait_count_ : Z;
  id_ : Z;
  is_active_ : bool;
  cancelled_ : bool;
  pending_cancel_ : bool
}.

Section Members.
Context {T : Type} `{CppType T}.

Definition with_coroutine (c : coroutine T) (s : t T) : t T :=
  {| coroutine_ := c; yield_ := yield_ s; result_ := result_ s;
     wait_count_ := wait_count_ s; id_ := id_ s; is_active_ := is_active_ s;
     cancelled_ := cancelled_ s; pending_cancel_ := pending_cancel_ s |}.

Definition with_yield (y : bool) (s : t T) : t T :=
  {| coroutine_ := coroutine_ s; yield_ := y; result_ := result_ s;
     wait_count_ := wait_count_ s; id_ := id_ s; is_active_ := is_active_ s;
     cancelled_ := cancelled_ s; pending_cancel_ := pending_cancel_ s |}.

Definition with_result (r : ResultHolder.t T) (s : t T) : t T :=
  {| coroutine_ := coroutine_ s; yield_ := yield_ s; result_ := r;
     wait_count_ := wait_count_ s; id_ := id_ s; is_active_ := is_active_ s;
     cancelled_ := cancelled_ s; pending_cancel_ := pending_cancel_ s |}.

Definition with_wait_count (n : Z) (s : t T) : t T :=
  {| coroutine_ := coroutine_ s; yield_ := yield_ s; result_ := result_ s;
     wait_count_ := n; id_ := id_ s; is_active_ := is_active_ s;
     cancelled_ := cancelled_ s; pending_cancel_ := pending_cancel_ s |}.

Definition with_pending_cancel (b : bool) (s : t T) : t T :=
  {| coroutine_ := coroutine_ s; yield_ := yield_ s; result_ := result_ s;
     wait_count_ := wait_count_ s; id_ := id_ s; is_active_ := is_active_ s;
     cancelled_ := cancelled_ s; pending_cancel_ := b |}.

(** [static uint64_t next_id()], the function-local [count] passed in
    and handed back. *)
Definition next_id (count : Z) : result (Z * Z) :=
  ELL_ASSERT (negb (count =? UINT64_MAX)) "Running out of ids."
    (Value (count + 1, count + 1)).

(** The handler at the top frame of the coroutine function:
    [catch (const std::exception &) { result_.store_exception(...); }].
    Anything else leaves the coroutine function. *)
Definition top_frame (e : exception) (s : t T)
  : transfer * t T * list (event T) :=
  if is_std_exception e then
    match ResultHolder.store_exception e (result_ s) with
    | Value r => (Finished, with_coroutine Complete (with_result r s), [CallableThrew e])
    | Throws e' => (Halted (Terminated e'), s, [CallableThrew e])
    | Fault f => (Halted f, s, [CallableThrew e])
    end
  else (Halted (Terminated e), s, [CallableThrew e]).

Definition emit (ev : event T) (r : transfer * t T * list (event T))
  : transfer * t T * list (event T) :=
  let '(tr, s, evs) := r in (tr, s, ev :: evs).

(** The coroutine runs [c] from inside the lambda's [try] block, that is
    [wrap_user_call(callable_cpy)], until [c] finishes or reaches
    [suspend()], whose first statement, the call through [yield_], hands
    control back. *)
Fixpoint run (c : code T) (s : t T) : transfer * t T * list (event T) :=
  match c with
  | Return v =>
      (* result_.store(callable()); then the lambda returns *)
      (Finished,
       with_coroutine Complete (with_result (ResultHolder.store v (result_ s)) s),
       [CallableReturned v])
  | Throw e => top_frame e s
  | Emit n k => emit (UserAction n) (run k s)
  | Suspend k h =>
      if yield_ s then (Yielded, with_coroutine (InSuspend k h) s, [])
      else (Halted (Undefined "call through a null yield_"), s, [])
  end.

(** [coroutine_()]: enter the coroutine where it stands. From [Created]
    this is the call at the end of [setup_coroutine]; from [InSuspend]
    it continues [suspend()] after the call through [yield_]. *)
Definition call (s : t T) : transfer * t T * list (event T) :=
  match coroutine_ s with
  | NotACoroutine | Complete =>
      (Halted (Undefined "call of a coroutine that cannot be entered"), s, [])
  | Created c =>
      (* this->yield_ = &yield; yield(); *)
      (Yielded, with_coroutine (EntryBarrier c) (with_yield true s), [])
  | EntryBarrier c => run c s
  | InSuspend k h =>
      if pending_cancel_ s then
        (* pending_cancel_ = false; throw ex::Cancelled(); *)
        let s' := with_pending_cancel false s in
        emit CancelledThrown (run h s')
      else run k s
  end.

(** [void setup_coroutine(const Callable &callable)] *)
Definition setup_coroutine (callable : code T) (s : t T)
  : transfer * t T * list (event T) :=
  call (with_coroutine (Created callable) s).

(** [TaskImpl(const Callable &callable)]: the member initialisers, then
    [setup_coroutine(callable)]. Gives the task, the new value of the
    id counter and what ran meanwhile. *)
Definition create (count : Z) (callable : code T)
  : result (t T * Z * list (event T)) :=
  match next_id count with
  | Value (id, count') =>
      let s0 := {| coroutine_ := NotACoroutine; yield_ := false;
                   result_ := ResultHolder.empty; wait_count_ := 0; id_ := id;
                   is_active_ := false; cancelled_ := false;
                   pending_cancel_ := false |} in
      match setup_coroutine callable s0 with
      | (Halted f, _, _) => Fault f
      | (_, s, evs) => Value (s, count', evs)
      end
  | Throws e => Throws e
  | Fault f => Fault f
  end.

(** [T get_result()] *)
Definition get_result (s : t T) : result T * t T :=
  let '(r, h) := ResultHolder.get (result_ s) in (r, with_result h s).

(** [void resume()] *)
Definition resume (s : t T) : transfer * t T * list (event T) := call s.

(** [bool is_complete() const]: [!coroutine_]. *)
Definition is_complete (s : t T) : bool :=
  match coroutine_ s with
  | NotACoroutine | Complete => true
  | _ => false
  end.

(** [void set_active(bool val)] *)
Definition set_active (val : bool) (s : t T) : t T :=
  {| coroutine_ := coroutine_ s; yield_ := yield_ s; result_ := result_ s;
     wait_count_ := wait_count_ s; id_ := id_ s; is_active_ := val;
     cancelled_ := cancelled_ s; pending_cancel_ := pending_cancel_ s |}.

Definition is_active (s : t T) : bool := is_active_ s.
Definition id (s : t T) : Z := id_ s.
Definition wait_count (s : t T) : Z := wait_count_ s.

(** [void incr_wait_count()]: [wait_count_++] on an [unsigned int]. *)
Definition incr_wait_count (s : t T) : t T :=
  with_wait_count ((wait_count_ s + 1) mod UINT_MODULUS) s.

(** [void decr_wait_count()] *)
Definition decr_wait_count (s : t T) : result (t T) :=
  ELL_ASSERT (0 <? wait_count_ s) "wait_count cannot be negative."
    (Value (with_wait_count ((wait_count_ s - 1) mod UINT_MODULUS) s)).

(** [void cancel()] *)
Definition cancel (s : t T) : t T := with_pending_cancel true s.

(** [bool cancelled() const] *)
Definition cancelled (s : t T) : bool := cancelled_ s.
End Members.

End TaskImpl.

(* ===================================================================== *)
(** ** ell.hpp                                                            *)
(* ===================================================================== *)

Module Ell.

(** [EventLoop *]: null, or the address of a loop. *)
Definition EventLoop_ptr : Type := option Z.

(** [static thread_local EventLoop *current_loop = nullptr;] *)
Definition current_loop_initial : EventLoop_ptr := None.

(** [EventLoop *set_current_event_loop(EventLoop *loop, bool set = true)]:
    the value returned and the new value of the thread-local. *)
Definition set_current_event_loop (loop : EventLoop_ptr) (set : bool)
    (current_loop : EventLoop_ptr) : EventLoop_ptr * EventLoop_ptr :=
  let current_loop' := if set then loop else current_loop in
  (current_loop', current_loop').

(** [EventLoop *get_current_event_loop()] *)
Definition get_current_event_loop (current_loop : EventLoop_ptr)
  : EventLoop_ptr * EventLoop_ptr :=
  set_current_event_loop None false current_loop.

(** The member functions of the loop that the free functions call. *)
Inductive loop_call (D : Type) : Type :=
| suspend_current_task
| sleep_current_task (duration : D)
| yield_callable.
Arguments suspend_current_task {D}.
Arguments yield_callable {D}.

(** [p->m(...)]: the call reaches the loop at address [a], or goes through
    a null pointer. *)
Definition arrow {D : Type} (p : EventLoop_ptr) (m : loop_call D)
  : result (Z * loop_call D) :=
  match p with
  | Some a => Value (a, m)
  | None => Fault (Undefined "member call through a null EventLoop pointer")
  end.

Section FreeFunctions.
Context {D : Type}.

(** [void yield()] *)
Definition yield (current_loop : EventLoop_ptr) : result (Z * loop_call D) :=
  arrow (fst (get_current_event_loop current_loop)) suspend_current_task.

(** [template <typename Duration> void sleep(const Duration &duration)] *)
Definition sleep (duration : D) (current_loop : EventLoop_ptr)
  : result (Z * loop_call D) :=
  arrow (fst (get_current_event_loop current_loop)) (sleep_current_task duration).

(** [template <typename Callable> auto yield(const Callable &callable)] *)
Definition yield_to (current_loop : EventLoop_ptr) : result (Z * loop_call D) :=
  let loop := fst (get_current_event_loop current_loop) in
  arrow loop yield_callable.
End FreeFunctions.

End Ell.

(* ===================================================================== *)
(** ** A caller driving one task                                          *)
(* ===================================================================== *)

(** The event loop and the primitives act on a task through its public
    member functions. [Driver] replays any sequence of such calls on one
    task and keeps what the coroutine let an observer see. *)
Module Driver.

Inductive op : Type :=
| Resume
| Cancel
| IncrWaitCount
| DecrWaitCount
| SetActive (val : bool).

Record machine (T : Type) : Type := Make {
  task : TaskImpl.t T;
  trace : list (event T);
  halted : option fault
}.

Section Run.
Context {T : Type} `{CppType T}.

Definition start (s : TaskImpl.t T) (evs : list (event T)) : machine T :=
  {| task := s; trace := evs; halted := None |}.

(** One call; nothing runs once the program has stopped. *)
Definition step (m : machine T) (o : op) : machine T :=
  match halted m with
  | Some _ => m
  | None =>
      match o with
      | Resume =>
          let '(tr, s, evs) := TaskImpl.resume (task m) in
          {| task := s; trace := trace m ++ evs;
             halted := match tr with Halted f => Some f | _ => None end |}
      | Cancel =>
          {| task := TaskImpl.cancel (task m); trace := trace m; halted := None |}
      | IncrWaitCount =>
          {| task := TaskImpl.incr_wait_count (task m); trace := trace m;
             halted := None |}
      | DecrWaitCount =>
          match TaskImpl.decr_wait_count (task m) with
          | Value s => {| task := s; trace := trace m; halted := None |}
          | Throws e => {| task := task m; trace := trace m;
                           halted := Some (Terminated e) |}
          | Fault f => {| task := task m; trace := trace m; halted := Some f |}
          end
      | SetActive val =>
          {| task := TaskImpl.set_active val (task m); trace := trace m;
             halted := None |}
      end
  end.

Definition exec (ops : list op) (m : machine T) : machine T :=
  fold_left step ops m.
End Run.

Definition is_cancel (o : op) : bool :=
  match o with Cancel => true | _ => false end.

Definition is_delivery {T : Type} (ev : event T) : bool :=
  match ev with CancelledThrown => true | _ => false end.

(** How many times [cancel()] is called in [ops]. *)
Definition cancels (ops : list op) : nat := List.length (filter is_cancel ops).

(** How many times [Cancelled] was thrown into the coroutine in [evs]. *)
Definition deliveries {T : Type} (evs : list (event T)) : nat :=
  List.length (filter is_delivery evs).

End Driver.

(* ===================================================================== *)
(** ** Sample runs                                                        *)
(* ===================================================================== *)

Module Samples.
Import TaskImpl Driver.

(** A callable that acts, yields once catching nothing, acts and returns 7. *)
Definition yield_once : code Z :=
  Emit 1 (Suspend (Emit 2 (Return 7)) (Throw Cancelled)).

(** A callable that catches [Cancelled] at its first yield, cleans up
    (action 9), yields again and returns 0. *)
Definition cleanup_on_cancel : code Z :=
  Suspend (Return 1) (Emit 9 (Suspend (Return 0) (Throw Cancelled))).

(** [throw 42;] *)
Definition throws_int : code Z := Throw (Foreign 42).

(** The task built from [callable] as the first task of the process. *)
Definition first_task {T : Type} `{CppType T} (callable : code T) : machine T :=
  match create 0 callable with
  | Value (s, _, evs) => start s evs
  | _ => start (TaskImpl.Make NotACoroutine false ResultHolder.empty 0 0 false false false) []
  end.
End Samples.

(* ===================================================================== *)
(** ** Vocabulary of the statements                                       *)
(* ===================================================================== *)

Section Vocabulary.
Context {T : Type} `{CppType T}.

Local Abbreviation task_t := (TaskImpl.t T).

(** The exit events of a trace: how [callable()] left the [try] block. *)
Definition is_exit (ev : event T) : bool :=
  match ev with
  | CallableReturned _ | CallableThrew _ => true
  | _ => false
  end.

Definition exits (evs : list (event T)) : list (event T) := filter is_exit evs.

(** The members that no stretch of coroutine execution writes. *)
Definition same_bookkeeping (s s' : task_t) : Prop :=
  TaskImpl.pending_cancel_ s' = TaskImpl.pending_cancel_ s /\
  TaskImpl.cancelled_ s' = TaskImpl.cancelled_ s /\
  TaskImpl.wait_count_ s' = TaskImpl.wait_count_ s /\
  TaskImpl.id_ s' = TaskImpl.id_ s /\
  TaskImpl.is_active_ s' = TaskImpl.is_active_ s.

Definition b2n (b : bool) : nat := if b then 1%nat else 0%nat.

(** The slot of a task whose callable threw [e]: nothing but [eptr_]. *)
Definition failure_slot (e : exception) : ResultHolder.t T :=
  {| ResultHolderImpl.storage_ := ResultHolderImpl.Raw;
     ResultHolderImpl.eptr_ := Some e;
     ResultHolderImpl.obj_ := ResultHolderImpl.nullptr |}.

(** What a stretch of coroutine execution that started with an empty slot
    leaves behind, by the way control came back. *)
Definition after_call (tr : transfer) (s' : TaskImpl.t T) (evs : list (event T)) : Prop :=
  match tr with
  | Yielded =>
      TaskImpl.is_complete s' = false /\
      TaskImpl.result_ s' = ResultHolder.empty /\
      exits evs = []
  | Finished =>
      TaskImpl.coroutine_ s' = Complete /\
      ((exists v, TaskImpl.result_ s' = ResultHolder.store v ResultHolder.empty /\
                  exits evs = [CallableReturned v]) \/
       (exists e, is_std_exception e = true /\
                  TaskImpl.result_ s' = failure_slot e /\
                  exits evs = [CallableThrew e]))
  | Halted f =>
      TaskImpl.is_complete s' = false /\
      TaskImpl.result_ s' = ResultHolder.empty /\
      (exits evs = [] \/
       (exists e, f = Terminated e /\ is_std_exception e = false /\
                  exits evs = [CallableThrew e]))
  end.

(** The stages of a task's life as its driver sees them. *)
Inductive lifecycle (m : Driver.machine T) : Prop :=
| life_running :
    TaskImpl.is_complete (Driver.task m) = false ->
    TaskImpl.result_ (Driver.task m) = ResultHolder.empty ->
    exits (Driver.trace m) = [] ->
    lifecycle m
| life_returned (v : T) :
    TaskImpl.coroutine_ (Driver.task m) = Complete ->
    TaskImpl.result_ (Driver.task m) = ResultHolder.store v ResultHolder.empty ->
    exits (Driver.trace m) = [CallableReturned v] ->
    lifecycle m
| life_failed (e : exception) :
    TaskImpl.coroutine_ (Driver.task m) = Complete ->
    is_std_exception e = true ->
    TaskImpl.result_ (Driver.task m) = failure_slot e ->
    exits (Driver.trace m) = [CallableThrew e] ->
    lifecycle m
| life_terminated (e : exception) :
    TaskImpl.is_complete (Driver.task m) = false ->
    Driver.halted m = Some (Terminated e) ->
    is_std_exception e = false ->
    TaskImpl.result_ (Driver.task m) = ResultHolder.empty ->
    exits (Driver.trace m) = [CallableThrew e] ->
    lifecycle m.

(** [wait_count()] is a value of an [unsigned int]. *)
Definition wait_count_in_range (s : TaskImpl.t T) : Prop :=
  0 <= TaskImpl.wait_count s < TaskImpl.UINT_MODULUS.

(** The task that the constructor leaves behind: stopped at the entry
    barrier, the whole callable still to run. *)
Definition constructed (id : Z) (callable : code T) : TaskImpl.t T :=
  {| TaskImpl.coroutine_ := EntryBarrier callable;
     TaskImpl.yield_ := true;
     TaskImpl.result_ := ResultHolder.empty;
     TaskImpl.wait_count_ := 0;
     TaskImpl.id_ := id;
     TaskImpl.is_active_ := false;
     TaskImpl.cancelled_ := false;
     TaskImpl.pending_cancel_ := false |}.

End Vocabulary.

(* ===================================================================== *)
(** ** Several tasks, several stores, several installs                    *)
(* ===================================================================== *)

Module Process.

(** The tasks of one process are constructed one after the other; each
    constructor takes the function-local counter of [next_id] where the one
    before left it. *)
Fixpoint create_many {T : Type} `{CppType T} (count : Z) (callables : list (code T))
  : result (list (TaskImpl.t T) * Z) :=
  match callables with
  | [] => Value ([], count)
  | c :: rest =>
      match TaskImpl.create count c with
      | Value (s, count', _) =>
          match create_many count' rest with
          | Value (ss, last) => Value (s :: ss, last)
          | Throws e => Throws e
          | Fault f => Fault f
          end
      | Throws e => Throws e
      | Fault f => Fault f
      end
  end.

(** [store(v)] for each [v] of [vs] in turn, on the default [ResultHolder]. *)
Definition stores {T : Type} `{CppType T} (vs : list T) (h : ResultHolder.t T)
  : ResultHolder.t T :=
  fold_left (fun h' v => ResultHolder.store v h') vs h.

(** The holder after [n] calls of [get]. *)
Fixpoint gets {T : Type} `{CppType T} (n : nat) (h : ResultHolder.t T)
  : ResultHolder.t T :=
  match n with
  | O => h
  | S n' => snd (ResultHolder.get (gets n' h))
  end.

(** What [n] move constructions in a row leave of [v]. *)
Fixpoint moved_from_n {T : Type} `{CppType T} (n : nat) (v : T) : T :=
  match n with
  | O => v
  | S n' => moved_from (moved_from_n n' v)
  end.

(** The thread-local after the calls [set_current_event_loop(loop, set)]
    of [calls], in order. *)
Definition set_calls (calls : list (Ell.EventLoop_ptr * bool))
    (current_loop : Ell.EventLoop_ptr) : Ell.EventLoop_ptr :=
  fold_left (fun cl c => snd (Ell.set_current_event_loop (fst c) (snd c) cl))
    calls current_loop.

End Process.

(* ===================================================================== *)
(** ** A caller that also retrieves the result                            *)
(* ===================================================================== *)

(** [get_result] is a member call like the others, and the only one besides
    the coroutine itself that writes [result_]. An exception that
    [get_result] throws reaches its caller, who may catch it; undefined
    behaviour stops the program. *)
Module Caller.

Inductive call : Type :=
| Member (o : Driver.op)
| GetResult.

Section Run.
Context {T : Type} `{CppType T}.

Definition step (m : Driver.machine T) (c : call) : Driver.machine T :=
  match Driver.halted m with
  | Some _ => m
  | None =>
      match c with
      | Member o => Driver.step m o
      | GetResult =>
          let '(r, s) := TaskImpl.get_result (Driver.task m) in
          {| Driver.task := s; Driver.trace := Driver.trace m;
             Driver.halted := match r with Fault f => Some f | _ => None end |}
      end
  end.

Definition exec (calls : list call) (m : Driver.machine T) : Driver.machine T :=
  fold_left step calls m.
End Run.

Definition is_get_result (c : call) : bool :=
  match c with GetResult => true | Member _ => false end.

(** How many times [get_result] is called in [calls]. *)
Definition get_results (calls : list call) : nat :=
  List.length (filter is_get_result calls).

End Caller.

(* ===================================================================== *)
(** ** Measures of a callable and of a sequence of calls                  *)
(* ===================================================================== *)

Section Measures.
Context {T : Type} `{CppType T}.

(** The most [suspend()]s the callable can go through on one path. *)
Fixpoint depth (c : code T) : nat :=
  match c with
  | Return _ | Throw _ => 0%nat
  | Emit _ k => depth k
  | Suspend k h => S (Nat.max (depth k) (depth h))
  end.

(** How many more times a coroutine can hand control back. *)
Definition fuel (co : coroutine T) : nat :=
  match co with
  | NotACoroutine | Complete => 0%nat
  | Created c => S (S (depth c))
  | EntryBarrier c => S (depth c)
  | InSuspend k h => S (Nat.max (depth k) (depth h))
  end.

(** The callable never reaches [suspend()]. *)
Fixpoint suspend_free (c : code T) : bool :=
  match c with
  | Return _ | Throw _ => true
  | Emit _ k => suspend_free k
  | Suspend _ _ => false
  end.

(** The callable read as a plain function whose [suspend()]s all return
    normally: the [suspend()]s it goes through, what it does, how it exits. *)
Fixpoint yields (c : code T) : nat :=
  match c with
  | Return _ | Throw _ => 0%nat
  | Emit _ k => yields k
  | Suspend k _ => S (yields k)
  end.

Fixpoint actions (c : code T) : list Z :=
  match c with
  | Return _ | Throw _ => []
  | Emit n k => n :: actions k
  | Suspend k _ => actions k
  end.

Fixpoint exit_event (c : code T) : event T :=
  match c with
  | Return v => CallableReturned v
  | Throw e => CallableThrew e
  | Emit _ k => exit_event k
  | Suspend k _ => exit_event k
  end.

(** The whole trace of such a run. *)
Definition plain_trace (c : code T) : list (event T) :=
  map (fun n => UserAction n) (actions c) ++ [exit_event c].

(** Counting the calls of a sequence. *)
Definition is_resume (o : Driver.op) : bool :=
  match o with Driver.Resume => true | _ => false end.
Definition is_incr (o : Driver.op) : bool :=
  match o with Driver.IncrWaitCount => true | _ => false end.
Definition is_decr (o : Driver.op) : bool :=
  match o with Driver.DecrWaitCount => true | _ => false end.

Definition resumes (ops : list Driver.op) : nat := List.length (filter is_resume ops).
Definition incrs (ops : list Driver.op) : nat := List.length (filter is_incr ops).
Definition decrs (ops : list Driver.op) : nat := List.length (filter is_decr ops).

(** The argument of the last [set_active] of [ops], or [before]. *)
Definition last_active (ops : list Driver.op) (before : bool) : bool :=
  fold_left (fun a o => match o with Driver.SetActive val => val | _ => a end)
    ops before.

End Measures.

(* ===================================================================== *)
(** ** Facts about the coroutine                                          *)
(* ===================================================================== *)

Section CoroutineFacts.
Context {T : Type} `{CppType T}.

Local Abbreviation task_t := (TaskImpl.t T).
Local Abbreviation outcome := (transfer * TaskImpl.t T * list (event T))%type.


Lemma same_bookkeeping_refl (s : task_t) : same_bookkeeping s s.
Proof. repeat split. Qed.

Lemma top_frame_bookkeeping (e : exception) (s : task_t) :
  same_bookkeeping s (snd (fst (TaskImpl.top_frame e s))) /\
  Driver.deliveries (snd (TaskImpl.top_frame e s)) = 0%nat.
Proof.
  unfold TaskImpl.top_frame.
  destruct (is_std_exception e); [|split; [apply same_bookkeeping_refl | reflexivity]].
  unfold ResultHolder.store_exception, ResultHolderImpl.store_exception, c_assert.
  destruct (ResultHolderImpl.eptr_ (TaskImpl.result_ s));
    (split; [repeat split | reflexivity]).
Qed.

Lemma emit_fst (ev : event T) (r : outcome) :
  fst (TaskImpl.emit ev r) = fst r.
Proof. destruct r as [[tr s] evs]. reflexivity. Qed.

Lemma emit_snd (ev : event T) (r : outcome) :
  snd (TaskImpl.emit ev r) = ev :: snd r.
Proof. destruct r as [[tr s] evs]. reflexivity. Qed.

(** Running user code touches neither flag nor counter, and throws no
    [Cancelled] of the runtime's own. *)
Lemma run_bookkeeping (c : code T) (s : task_t) :
  same_bookkeeping s (snd (fst (TaskImpl.run c s))) /\
  Driver.deliveries (snd (TaskImpl.run c s)) = 0%nat.
Proof.
  induction c as [v | e | n k IH | k IHk h IHh]; cbn [TaskImpl.run].
  - split; [repeat split | reflexivity].
  - apply top_frame_bookkeeping.
  - rewrite emit_fst, emit_snd. destruct IH as [IH1 IH2]. split; [exact IH1 | exact IH2].
  - destruct (TaskImpl.yield_ s); (split; [repeat split | reflexivity]).
Qed.

(** [coroutine_()] leaves [cancelled_], [wait_count_], [id_] and
    [is_active_] alone. *)
Lemma call_keeps (s : task_t) :
  let s' := snd (fst (TaskImpl.call s)) in
  TaskImpl.cancelled_ s' = TaskImpl.cancelled_ s /\
  TaskImpl.wait_count_ s' = TaskImpl.wait_count_ s /\
  TaskImpl.id_ s' = TaskImpl.id_ s /\
  TaskImpl.is_active_ s' = TaskImpl.is_active_ s.
Proof.
  unfold TaskImpl.call.
  destruct (TaskImpl.coroutine_ s) as [ | c | c | k h | ]; cbn; try (repeat split; fail).
  - destruct (run_bookkeeping c s) as [(_ & A & B & C & D) _]. auto.
  - destruct (TaskImpl.pending_cancel_ s).
    + rewrite emit_fst.
      destruct (run_bookkeeping h (TaskImpl.with_pending_cancel false s))
        as [(_ & A & B & C & D) _]. auto.
    + destruct (run_bookkeeping k s) as [(_ & A & B & C & D) _]. auto.
Qed.

(** A call of the coroutine throws [Cancelled] at most as often as it
    uses up the pending flag. *)
Lemma call_delivery_budget (s : task_t) :
  (Driver.deliveries (snd (TaskImpl.call s))
     + b2n (TaskImpl.pending_cancel_ (snd (fst (TaskImpl.call s)))))%nat
  = b2n (TaskImpl.pending_cancel_ s).
Proof.
  unfold TaskImpl.call.
  destruct (TaskImpl.coroutine_ s) as [ | c | c | k h | ]; cbn; try reflexivity.
  - destruct (run_bookkeeping c s) as [(A & _) B]. rewrite A, B. reflexivity.
  - destruct (TaskImpl.pending_cancel_ s) eqn:P.
    + rewrite emit_fst, emit_snd.
      destruct (run_bookkeeping h (TaskImpl.with_pending_cancel false s)) as [(A & _) B].
      unfold Driver.deliveries in *. cbn [filter Driver.is_delivery List.length].
      rewrite A, B. reflexivity.
    + destruct (run_bookkeeping k s) as [(A & _) B]. rewrite A, B, P. reflexivity.
Qed.

(** A call of the coroutine throws [Cancelled] only on the way out of
    [suspend()], with the pending flag set. *)
Lemma call_delivers_only_in_suspend (s : task_t) :
  In CancelledThrown (snd (TaskImpl.call s)) ->
  (exists k h, TaskImpl.coroutine_ s = InSuspend k h) /\
  TaskImpl.pending_cancel_ s = true.
Proof.
  assert (NoDel : forall evs : list (event T),
             Driver.deliveries evs = 0%nat -> ~ In CancelledThrown evs).
  { intros evs E I. unfold Driver.deliveries in E.
    assert (I' : In CancelledThrown (filter Driver.is_delivery evs))
      by (apply filter_In; split; [exact I | reflexivity]).
    destruct (filter Driver.is_delivery evs); [destruct I' | discriminate]. }
  unfold TaskImpl.call.
  destruct (TaskImpl.coroutine_ s) as [ | c | c | k h | ]; cbn;
    try (intros []; fail).
  - intros I. exfalso. exact (NoDel _ (proj2 (run_bookkeeping c s)) I).
  - destruct (TaskImpl.pending_cancel_ s).
    + intros _. split; [exists k, h; reflexivity | reflexivity].
    + intros I. exfalso. exact (NoDel _ (proj2 (run_bookkeeping k s)) I).
Qed.

End CoroutineFacts.

(* ===================================================================== *)
(** ** The life of a task under its driver                                *)
(* ===================================================================== *)

Section LifecycleFacts.
Context {T : Type} `{CppType T}.

Local Abbreviation task_t := (TaskImpl.t T).

Lemma exits_app (l1 l2 : list (event T)) : exits (l1 ++ l2) = exits l1 ++ exits l2.
Proof. unfold exits. apply filter_app. Qed.

Lemma top_frame_after (e : exception) (s : task_t) :
  TaskImpl.result_ s = ResultHolder.empty ->
  TaskImpl.is_complete s = false ->
  forall tr s' evs, TaskImpl.top_frame e s = (tr, s', evs) -> after_call tr s' evs.
Proof.
  intros Hr Hc tr s' evs. unfold TaskImpl.top_frame.
  destruct (is_std_exception e) eqn:Estd.
  - rewrite Hr. cbn. intros E. inversion E; subst; clear E. cbn.
    split; [reflexivity |]. right. exists e. repeat split; assumption.
  - intros E. inversion E; subst; clear E. cbn.
    repeat split; try assumption. right. exists e. repeat split; assumption.
Qed.

Lemma run_after (c : code T) (s : task_t) :
  TaskImpl.result_ s = ResultHolder.empty ->
  TaskImpl.is_complete s = false ->
  forall tr s' evs, TaskImpl.run c s = (tr, s', evs) -> after_call tr s' evs.
Proof.
  intros Hr Hc.
  induction c as [v | e | n k IH | k IHk h IHh]; intros tr s' evs; cbn [TaskImpl.run].
  - intros E. inversion E; subst; clear E. cbn.
    split; [reflexivity |]. left. exists v. rewrite Hr. split; reflexivity.
  - apply top_frame_after; assumption.
  - destruct (TaskImpl.run k s) as [[tr0 s0] evs0] eqn:Ek. cbn.
    intros E. inversion E; subst; clear E.
    specialize (IH _ _ _ eq_refl).
    destruct tr; cbn in *; exact IH.
  - destruct (TaskImpl.yield_ s); intros E; inversion E; subst; clear E; cbn.
    + repeat split; assumption.
    + repeat split; try assumption. left. reflexivity.
Qed.

Lemma after_call_emit_delivery (tr : transfer) (s' : task_t) (evs : list (event T)) :
  after_call tr s' evs -> after_call tr s' (CancelledThrown :: evs).
Proof. destruct tr; cbn; exact (fun x => x). Qed.

Lemma call_after (s : task_t) :
  TaskImpl.result_ s = ResultHolder.empty ->
  TaskImpl.is_complete s = false ->
  forall tr s' evs, TaskImpl.call s = (tr, s', evs) -> after_call tr s' evs.
Proof.
  intros Hr Hc tr s' evs. unfold TaskImpl.call.
  unfold TaskImpl.is_complete in Hc.
  destruct (TaskImpl.coroutine_ s) as [ | c | c | k h | ] eqn:Ec; try discriminate.
  - intros E. inversion E; subst; clear E. cbn. repeat split. exact Hr.
  - apply run_after; [exact Hr | unfold TaskImpl.is_complete; rewrite Ec; reflexivity].
  - destruct (TaskImpl.pending_cancel_ s).
    + destruct (TaskImpl.run h (TaskImpl.with_pending_cancel false s))
        as [[tr0 s0] evs0] eqn:Eh. cbn.
      intros E. inversion E; subst; clear E.
      apply after_call_emit_delivery.
      apply (@run_after h (TaskImpl.with_pending_cancel false s)); cbn;
        [exact Hr | unfold TaskImpl.is_complete; cbn; rewrite Ec; reflexivity | exact Eh].
    + apply run_after; [exact Hr | unfold TaskImpl.is_complete; rewrite Ec; reflexivity].
Qed.

(** A completed coroutine cannot be entered again: the call changes nothing. *)
Lemma call_complete (s : task_t) :
  TaskImpl.coroutine_ s = Complete ->
  TaskImpl.call s =
    (Halted (Undefined "call of a coroutine that cannot be entered"), s, []).
Proof. intros E. unfold TaskImpl.call. rewrite E. reflexivity. Qed.

(** A member call that writes neither [coroutine_] nor [result_] and adds
    nothing to the trace leaves the task in the stage it was in. *)
Ltac same_stage L Eh :=
  let Hc := fresh "Hc" in
  let Hr := fresh "Hr" in
  let Hx := fresh "Hx" in
  let Hs := fresh "Hs" in
  let Hh := fresh "Hh" in
  let v := fresh "v" in
  let e := fresh "e" in
  destruct L as [Hc Hr Hx | v Hc Hr Hx | e Hc Hs Hr Hx | e Hc Hh Hs Hr Hx];
  [ apply life_running; assumption
  | apply (@life_returned _ _ _ v); assumption
  | apply (@life_failed _ _ _ e); assumption
  | rewrite Hh in Eh; discriminate ].

Lemma step_lifecycle (m : Driver.machine T) (o : Driver.op) :
  lifecycle m -> lifecycle (Driver.step m o).
Proof.
  intros L. unfold Driver.step.
  destruct (Driver.halted m) as [f|] eqn:Eh; [exact L |].
  destruct o as [ | | | | val].
  - (* Resume *)
    unfold TaskImpl.resume.
    destruct (TaskImpl.call (Driver.task m)) as [[tr s] evs] eqn:Ecall.
    destruct L as [Hc Hr Hx | v Hc Hr Hx | e Hc Hs Hr Hx | e Hc Hh Hs Hr Hx].
    + pose proof (call_after _ Hr Hc Ecall) as A.
      destruct tr as [ | | f]; cbn in A.
      * destruct A as (A1 & A2 & A3).
        apply life_running; cbn [Driver.task Driver.trace Driver.halted];
          [exact A1 | exact A2 |].
        rewrite exits_app, Hx, A3. reflexivity.
      * destruct A as (A1 & [(v & A2 & A3) | (e & A2 & A3 & A4)]).
        -- apply (@life_returned _ _ _ v); cbn [Driver.task Driver.trace Driver.halted];
             [exact A1 | exact A2 |].
           rewrite exits_app, Hx, A3. reflexivity.
        -- apply (@life_failed _ _ _ e); cbn [Driver.task Driver.trace Driver.halted];
             [exact A1 | exact A2 | exact A3 |].
           rewrite exits_app, Hx, A4. reflexivity.
      * destruct A as (A1 & A2 & [A3 | (e & A3 & A4 & A5)]).
        -- apply life_running; cbn [Driver.task Driver.trace Driver.halted];
             [exact A1 | exact A2 |].
           rewrite exits_app, Hx, A3. reflexivity.
        -- apply (@life_terminated _ _ _ e); cbn [Driver.task Driver.trace Driver.halted];
             [exact A1 | rewrite A3; reflexivity | exact A4 | exact A2 |].
           rewrite exits_app, Hx, A5. reflexivity.
    + rewrite (call_complete _ Hc) in Ecall. inversion Ecall; subst; clear Ecall.
      apply (@life_returned _ _ _ v); cbn [Driver.task Driver.trace Driver.halted];
        [exact Hc | exact Hr |].
      rewrite app_nil_r. exact Hx.
    + rewrite (call_complete _ Hc) in Ecall. inversion Ecall; subst; clear Ecall.
      apply (@life_failed _ _ _ e); cbn [Driver.task Driver.trace Driver.halted];
        [exact Hc | exact Hs | exact Hr |].
      rewrite app_nil_r. exact Hx.
    + rewrite Hh in Eh. discriminate.
  - (* Cancel *) same_stage L Eh.
  - (* IncrWaitCount *) same_stage L Eh.
  - (* DecrWaitCount *)
    unfold TaskImpl.decr_wait_count, ELL_ASSERT.
    destruct (0 <? TaskImpl.wait_count_ (Driver.task m)); same_stage L Eh.
  - (* SetActive *) same_stage L Eh.
Qed.

Lemma exec_lifecycle (ops : list Driver.op) (m : Driver.machine T) :
  lifecycle m -> lifecycle (Driver.exec ops m).
Proof.
  revert m. induction ops as [| o ops IH]; intros m L; cbn.
  - exact L.
  - apply IH. apply step_lifecycle. exact L.
Qed.

(** The constructor succeeds unless the ids have run out, and leaves the
    task stopped at the entry barrier without having run the callable. *)
Lemma create_value (count : Z) (callable : code T) :
  count <> TaskImpl.UINT64_MAX ->
  TaskImpl.create count callable
  = Value (constructed (count + 1) callable, count + 1, []).
Proof.
  intros Hne. unfold TaskImpl.create, TaskImpl.next_id, ELL_ASSERT.
  destruct (Z.eqb_spec count TaskImpl.UINT64_MAX) as [E | _]; [contradiction |].
  reflexivity.
Qed.

Lemma create_inv (count : Z) (callable : code T) s count' evs :
  TaskImpl.create count callable = Value (s, count', evs) ->
  s = constructed (count + 1) callable /\ count' = count + 1 /\ evs = [].
Proof.
  unfold TaskImpl.create, TaskImpl.next_id, ELL_ASSERT.
  destruct (Z.eqb_spec count TaskImpl.UINT64_MAX) as [E | _]; cbn; [discriminate |].
  intros E. inversion E. repeat split.
Qed.

Lemma constructed_lifecycle (id : Z) (callable : code T) :
  lifecycle (Driver.start (constructed id callable) []).
Proof. apply life_running; reflexivity. Qed.

End LifecycleFacts.

(* ===================================================================== *)
(** ** Cancellation                                                       *)
(* ===================================================================== *)

Section CancellationFacts.
Context {T : Type} `{CppType T}.

Lemma deliveries_app (l1 l2 : list (event T)) :
  Driver.deliveries (l1 ++ l2) = (Driver.deliveries l1 + Driver.deliveries l2)%nat.
Proof. unfold Driver.deliveries. rewrite filter_app, length_app. reflexivity. Qed.

Lemma cancels_cons (o : Driver.op) (ops : list Driver.op) :
  Driver.cancels (o :: ops) = (b2n (Driver.is_cancel o) + Driver.cancels ops)%nat.
Proof. unfold Driver.cancels. cbn [filter]. destruct (Driver.is_cancel o); reflexivity. Qed.

(** One call of a member function: the deliveries so far plus the pending
    request grow by at most one, and only when the call is [cancel()]. *)
Lemma step_delivery_budget (m : Driver.machine T) (o : Driver.op) :
  (Driver.deliveries (Driver.trace (Driver.step m o))
     + b2n (TaskImpl.pending_cancel_ (Driver.task (Driver.step m o)))
   <= Driver.deliveries (Driver.trace m)
     + b2n (TaskImpl.pending_cancel_ (Driver.task m))
     + b2n (Driver.is_cancel o))%nat.
Proof.
  unfold Driver.step.
  destruct (Driver.halted m); [lia |].
  destruct o as [ | | | | val]; cbn [Driver.is_cancel b2n].
  - unfold TaskImpl.resume.
    pose proof (call_delivery_budget (Driver.task m)) as B.
    destruct (TaskImpl.call (Driver.task m)) as [[tr s] evs].
    cbn [fst snd] in B. cbn [Driver.task Driver.trace].
    rewrite deliveries_app. lia.
  - cbn [Driver.task Driver.trace TaskImpl.cancel TaskImpl.with_pending_cancel
         TaskImpl.pending_cancel_ b2n].
    destruct (TaskImpl.pending_cancel_ (Driver.task m)); cbn [b2n]; lia.
  - cbn [Driver.task Driver.trace TaskImpl.incr_wait_count TaskImpl.with_wait_count
         TaskImpl.pending_cancel_]. lia.
  - unfold TaskImpl.decr_wait_count, ELL_ASSERT.
    destruct (0 <? TaskImpl.wait_count_ (Driver.task m));
      cbn [Driver.task Driver.trace TaskImpl.with_wait_count TaskImpl.pending_cancel_];
      lia.
  - cbn [Driver.task Driver.trace TaskImpl.set_active TaskImpl.pending_cancel_]. lia.
Qed.

Lemma exec_delivery_budget (ops : list Driver.op) (m : Driver.machine T) :
  (Driver.deliveries (Driver.trace (Driver.exec ops m))
     + b2n (TaskImpl.pending_cancel_ (Driver.task (Driver.exec ops m)))
   <= Driver.deliveries (Driver.trace m)
     + b2n (TaskImpl.pending_cancel_ (Driver.task m))
     + Driver.cancels ops)%nat.
Proof.
  revert m. induction ops as [| o ops IH]; intros m.
  - cbn. unfold Driver.cancels. cbn. lia.
  - cbn [Driver.exec fold_left]. rewrite cancels_cons.
    pose proof (IH (Driver.step m o)) as A. unfold Driver.exec in A.
    pose proof (step_delivery_budget m o) as B. lia.
Qed.

(** No member function ever writes [cancelled_]. *)
Lemma step_keeps_cancelled (m : Driver.machine T) (o : Driver.op) :
  TaskImpl.cancelled_ (Driver.task (Driver.step m o))
  = TaskImpl.cancelled_ (Driver.task m).
Proof.
  unfold Driver.step.
  destruct (Driver.halted m); [reflexivity |].
  destruct o as [ | | | | val]; try reflexivity.
  - unfold TaskImpl.resume.
    pose proof (call_keeps (Driver.task m)) as K.
    destruct (TaskImpl.call (Driver.task m)) as [[tr s] evs].
    cbn [fst snd] in K. cbn. tauto.
  - unfold TaskImpl.decr_wait_count, ELL_ASSERT.
    destruct (0 <? TaskImpl.wait_count_ (Driver.task m)); reflexivity.
Qed.

Lemma exec_keeps_cancelled (ops : list Driver.op) (m : Driver.machine T) :
  TaskImpl.cancelled (Driver.task (Driver.exec ops m))
  = TaskImpl.cancelled (Driver.task m).
Proof.
  revert m. induction ops as [| o ops IH]; intros m; [reflexivity |].
  cbn [Driver.exec fold_left]. unfold Driver.exec in IH. rewrite IH.
  apply step_keeps_cancelled.
Qed.

End CancellationFacts.

(** C1. When [suspend()] is re-entered with [pending_cancel_] set, it clears
    the flag and throws [Cancelled] inside the coroutine, so that the
    callable goes on in its handler and not after the call; over any
    sequence of member calls on a constructed task, [Cancelled] is thrown at
    most as often as [cancel()] was called; and a [resume()] throws it only
    on the way out of [suspend()] with the flag set. *)
Theorem suspend_delivers_cancellation_once (T : Type) `{CppType T} :
  (forall (s : TaskImpl.t T) (k h : code T),
      TaskImpl.coroutine_ s = InSuspend k h ->
      TaskImpl.pending_cancel_ s = true ->
      TaskImpl.resume s
      = TaskImpl.emit CancelledThrown
          (TaskImpl.run h (TaskImpl.with_pending_cancel false s)) /\
      TaskImpl.pending_cancel_ (snd (fst (TaskImpl.resume s))) = false /\
      Driver.deliveries (snd (TaskImpl.resume s)) = 1%nat) /\
  (forall (count : Z) (callable : code T) s0 count' evs0 (ops : list Driver.op),
      TaskImpl.create count callable = Value (s0, count', evs0) ->
      (Driver.deliveries (Driver.trace (Driver.exec ops (Driver.start s0 evs0)))
       <= Driver.cancels ops)%nat) /\
  (forall (s : TaskImpl.t T),
      In CancelledThrown (snd (TaskImpl.resume s)) ->
      (exists k h, TaskImpl.coroutine_ s = InSuspend k h) /\
      TaskImpl.pending_cancel_ s = true).
Proof.
  split; [| split].
  - intros s k h Ec Ep.
    assert (E : TaskImpl.resume s
                = TaskImpl.emit CancelledThrown
                    (TaskImpl.run h (TaskImpl.with_pending_cancel false s))).
    { unfold TaskImpl.resume, TaskImpl.call. rewrite Ec, Ep. reflexivity. }
    split; [exact E |].
    pose proof (call_delivery_budget s) as B. rewrite Ep in B.
    unfold TaskImpl.resume. cbn [b2n] in B.
    assert (D : (1 <= Driver.deliveries (snd (TaskImpl.call s)))%nat).
    { unfold TaskImpl.resume in E. rewrite E, emit_snd.
      unfold Driver.deliveries. cbn. lia. }
    destruct (TaskImpl.pending_cancel_ (snd (fst (TaskImpl.call s))));
      cbn [b2n] in B; split; try reflexivity; lia.
  - intros count callable s0 count' evs0 ops Hc.
    apply create_inv in Hc. destruct Hc as (-> & _ & ->).
    pose proof (exec_delivery_budget ops
                  (Driver.start (constructed (count + 1) callable) [])) as B.
    cbn [Driver.start Driver.trace Driver.task constructed TaskImpl.pending_cancel_ b2n]
      in B.
    change (Driver.deliveries (@nil (event T))) with 0%nat in B. lia.
  - intros s. apply call_delivers_only_in_suspend.
Qed.

(** The statement above at a task cancelled twice while it is suspended. *)
Lemma suspend_delivers_cancellation_once_witness :
  let m := Driver.exec [Driver.Resume; Driver.Cancel; Driver.Cancel]
             (Samples.first_task Samples.yield_once) in
  TaskImpl.pending_cancel_ (snd (fst (TaskImpl.resume (Driver.task m)))) = false /\
  Driver.deliveries (snd (TaskImpl.resume (Driver.task m))) = 1%nat /\
  (Driver.deliveries
     (Driver.trace
        (Driver.exec [Driver.Resume; Driver.Cancel; Driver.Cancel; Driver.Resume]
           (Driver.start (constructed 1 Samples.yield_once) [])))
   <= 2)%nat.
Proof.
  pose proof (@suspend_delivers_cancellation_once Z _) as (A & B & _).
  intros m.
  destruct (A (Driver.task m) (Emit 2 (Return 7)) (Throw Cancelled) eq_refl eq_refl)
    as (_ & A2 & A3).
  split; [exact A2 | split; [exact A3 |]].
  exact (B 0 Samples.yield_once (constructed 1 Samples.yield_once) 1 []
           [Driver.Resume; Driver.Cancel; Driver.Cancel; Driver.Resume] eq_refl).
Defined.

(** A callable that catches [Cancelled] and yields again is not cancelled a
    second time: one [cancel()], one throw, and the task returns. *)
Example cancel_once_to_catching_callable :
  let m := Driver.exec [Driver.Resume; Driver.Cancel; Driver.Resume; Driver.Resume]
             (Samples.first_task Samples.cleanup_on_cancel) in
  Driver.trace m = [CancelledThrown; UserAction 9; CallableReturned 0] /\
  Driver.halted m = None /\
  fst (TaskImpl.get_result (Driver.task m)) = Value 0.
Proof. cbv zeta. repeat split. Qed.

(** C2 (the code departs from it). [cancelled_] is initialised to [false] and
    no member function writes it: after [suspend()] has thrown [Cancelled]
    into the coroutine of a task, [cancelled()] still answers [false]. *)
Theorem cancelled_false_after_delivery :
  let m := Driver.exec [Driver.Resume; Driver.Cancel; Driver.Resume]
             (Samples.first_task Samples.yield_once) in
  Driver.trace m = [UserAction 1; CancelledThrown; CallableThrew Cancelled] /\
  Driver.halted m = None /\
  TaskImpl.is_complete (Driver.task m) = true /\
  TaskImpl.cancelled (Driver.task m) = false.
Proof. cbv zeta. repeat split. Qed.

(* ===================================================================== *)
(** ** The result slot                                                    *)
(* ===================================================================== *)

Section SlotFacts.
Context {T : Type} `{CppType T}.

(** A first [store] followed by [get]s: the value, then what the move left. *)
Lemma get_after_first_store (buffer_size align : Z) (obj : T) (h : ResultHolderImpl.t T) :
  ResultHolderImpl.obj_ h = ResultHolderImpl.nullptr ->
  ResultHolderImpl.eptr_ h = None ->
  let h1 := ResultHolderImpl.store buffer_size obj h in
  let h2 := snd (ResultHolderImpl.get h1) in
  fst (ResultHolderImpl.get h1) = Value obj /\
  fst (ResultHolderImpl.get h2) = Value (moved_from obj) /\
  ResultHolderImpl.holds_value h2 = true.
Proof.
  intros Ho He. unfold ResultHolderImpl.store, ResultHolderImpl.get.
  destruct (ResultHolderImpl.fits_inline buffer_size); cbn; rewrite ?Ho, ?He; cbn;
    repeat split.
Qed.

Lemma get_failure_slot (e : exception) :
  ResultHolder.get (failure_slot e) = (Throws e, failure_slot e).
Proof. reflexivity. Qed.

Lemma with_result_same (s : TaskImpl.t T) :
  TaskImpl.with_result (TaskImpl.result_ s) s = s.
Proof. destruct s. reflexivity. Qed.

Lemma In_exits (ev : event T) (evs : list (event T)) :
  In ev evs -> is_exit ev = true -> In ev (exits evs).
Proof. intros I E. unfold exits. apply filter_In. split; assumption. Qed.

End SlotFacts.

(** C3, amended. For a completed task, [get_result] returns the value that
    the callable returned, or throws again the failure with which it exited.
    Retrieval does not empty the slot: a stored failure is thrown again by
    the next [get_result], from an unchanged task, and a stored value has
    been moved from, so the next [get_result] returns the moved-from
    object. *)
Theorem get_result_of_completed_task (T : Type) `{CppType T}
    (count : Z) (callable : code T) (s0 : TaskImpl.t T) (count' : Z)
    (evs0 : list (event T)) (ops : list Driver.op) :
  TaskImpl.create count callable = Value (s0, count', evs0) ->
  let m := Driver.exec ops (Driver.start s0 evs0) in
  TaskImpl.is_complete (Driver.task m) = true ->
  (exists v,
      exits (Driver.trace m) = [CallableReturned v] /\
      fst (TaskImpl.get_result (Driver.task m)) = Value v /\
      let s1 := snd (TaskImpl.get_result (Driver.task m)) in
      fst (TaskImpl.get_result s1) = Value (moved_from v) /\
      ResultHolderImpl.holds_value (TaskImpl.result_ s1) = true) \/
  (exists e,
      exits (Driver.trace m) = [CallableThrew e] /\
      fst (TaskImpl.get_result (Driver.task m)) = Throws e /\
      snd (TaskImpl.get_result (Driver.task m)) = Driver.task m).
Proof.
  intros Hc m Hdone.
  apply create_inv in Hc. destruct Hc as (-> & _ & ->).
  pose proof (exec_lifecycle ops (constructed_lifecycle (count + 1) callable)) as L.
  fold m in L.
  destruct L as [Hn Hr Hx | v Hk Hr Hx | e Hk Hs Hr Hx | e Hn Hh Hs Hr Hx];
    try (rewrite Hn in Hdone; discriminate).
  - left. exists v. split; [exact Hx |].
    unfold TaskImpl.get_result. rewrite Hr.
    pose proof (@get_after_first_store T _ ResultHolder.buffer_size_ ResultHolder.align_
                  v ResultHolder.empty eq_refl eq_refl) as G.
    cbv zeta in G. destruct G as (G1 & G2 & G3).
    unfold ResultHolder.get, ResultHolder.store.
    destruct (ResultHolderImpl.get
                (ResultHolderImpl.store ResultHolder.buffer_size_ v ResultHolder.empty))
      as [r1 h1] eqn:E1.
    cbn [fst snd] in *. split; [exact G1 |].
    cbn [TaskImpl.with_result TaskImpl.result_].
    destruct (ResultHolderImpl.get h1) as [r2 h2] eqn:E2.
    cbn [fst snd] in *. split; [exact G2 | exact G3].
  - right. exists e. split; [exact Hx |].
    unfold TaskImpl.get_result. rewrite Hr, get_failure_slot. cbn [fst snd].
    split; [reflexivity |]. rewrite <- Hr. apply with_result_same.
Qed.

(** The statement above at a task that yields once and returns 7. *)
Lemma get_result_of_completed_task_witness :
  let m := Driver.exec [Driver.Resume; Driver.Resume]
             (Driver.start (constructed 1 Samples.yield_once) []) in
  (exists v,
      exits (Driver.trace m) = [CallableReturned v] /\
      fst (TaskImpl.get_result (Driver.task m)) = Value v /\
      let s1 := snd (TaskImpl.get_result (Driver.task m)) in
      fst (TaskImpl.get_result s1) = Value (moved_from v) /\
      ResultHolderImpl.holds_value (TaskImpl.result_ s1) = true) \/
  (exists e,
      exits (Driver.trace m) = [CallableThrew e] /\
      fst (TaskImpl.get_result (Driver.task m)) = Throws e /\
      snd (TaskImpl.get_result (Driver.task m)) = Driver.task m).
Proof.
  exact (@get_result_of_completed_task Z _ 0 Samples.yield_once
           (constructed 1 Samples.yield_once) 1 []
           [Driver.Resume; Driver.Resume] eq_refl eq_refl).
Defined.

(** C3 as stated fails: the result of a completed task is retrieved twice.
    The task returned the [int] 7; the first and the second [get_result]
    both return 7. A task that exited by [Cancelled] throws it at the first
    and at the second [get_result] alike. *)
Lemma get_result_twice_counterexample :
  let s := Driver.task (Driver.exec [Driver.Resume; Driver.Resume]
                          (Samples.first_task Samples.yield_once)) in
  let f := Driver.task (Driver.exec [Driver.Resume; Driver.Cancel; Driver.Resume]
                          (Samples.first_task Samples.yield_once)) in
  TaskImpl.is_complete s = true /\
  fst (TaskImpl.get_result s) = Value 7 /\
  fst (TaskImpl.get_result (snd (TaskImpl.get_result s))) = Value 7 /\
  TaskImpl.is_complete f = true /\
  fst (TaskImpl.get_result f) = Throws Cancelled /\
  fst (TaskImpl.get_result (snd (TaskImpl.get_result f))) = Throws Cancelled.
Proof. cbv zeta. repeat split. Qed.

(** C4, amended. [get_result] makes no completeness check. On a task that is
    not complete the slot is still empty, so [get_result] reads through the
    null [obj_]: undefined behaviour, no failure is thrown, and the task is
    left as it was. *)
Theorem get_result_before_completion (T : Type) `{CppType T}
    (count : Z) (callable : code T) (s0 : TaskImpl.t T) (count' : Z)
    (evs0 : list (event T)) (ops : list Driver.op) :
  TaskImpl.create count callable = Value (s0, count', evs0) ->
  let m := Driver.exec ops (Driver.start s0 evs0) in
  TaskImpl.is_complete (Driver.task m) = false ->
  TaskImpl.get_result (Driver.task m)
  = (Fault (Undefined "read through a null obj_"), Driver.task m).
Proof.
  intros Hc m Hrun.
  apply create_inv in Hc. destruct Hc as (-> & _ & ->).
  pose proof (exec_lifecycle ops (constructed_lifecycle (count + 1) callable)) as L.
  fold m in L.
  assert (Hr : TaskImpl.result_ (Driver.task m) = ResultHolder.empty).
  { unfold TaskImpl.is_complete in Hrun.
    destruct L as [Hn Hr Hx | v Hk Hr Hx | e Hk Hs Hr Hx | e Hn Hh Hs Hr Hx];
      try exact Hr; rewrite Hk in Hrun; discriminate. }
  unfold TaskImpl.get_result. rewrite Hr. cbn.
  rewrite <- Hr. rewrite with_result_same. reflexivity.
Qed.

(** The statement above at a task that is suspended in its first yield. *)
Lemma get_result_before_completion_witness :
  let m := Driver.exec [Driver.Resume]
             (Driver.start (constructed 1 Samples.yield_once) []) in
  TaskImpl.get_result (Driver.task m)
  = (Fault (Undefined "read through a null obj_"), Driver.task m).
Proof.
  exact (@get_result_before_completion Z _ 0 Samples.yield_once
           (constructed 1 Samples.yield_once) 1 [] [Driver.Resume] eq_refl eq_refl).
Defined.

(** C4 as stated fails: on a task that has only been constructed,
    [get_result] throws nothing at all. *)
Lemma incomplete_task_get_result_throws_nothing :
  let s := Driver.task (Samples.first_task Samples.yield_once) in
  TaskImpl.is_complete s = false /\
  ~ (exists e, fst (TaskImpl.get_result s) = Throws e).
Proof.
  cbv zeta. split; [reflexivity |]. intros [e E]. cbv in E. discriminate.
Qed.

(** C5 (the code departs from it). [store_exception] asserts that no failure
    is stored yet, [store] asserts nothing: on a [ResultHolder] that already
    holds the [int] 1, [store(2)] returns normally and the slot then yields
    2; a failure stored after a value is accepted as well, and the slot then
    holds both. Only a second [store_exception] is stopped by the assertion.
    With a [std::unique_ptr<int>] the second [store] is no overwrite either:
    the deleter of the first object destroys the second, and the slot points
    to a dead object. *)
Theorem second_store_overwrites :
  let once : ResultHolder.t Z := ResultHolder.store 1 ResultHolder.empty in
  let twice : ResultHolder.t Z := ResultHolder.store 2 once in
  let dead : ResultHolder.t unique_int :=
    ResultHolder.store (UniqueInt (Some 2))
      (ResultHolder.store (UniqueInt (Some 1)) ResultHolder.empty) in
  fst (ResultHolder.get once) = Value 1 /\
  twice = ResultHolder.store 2 ResultHolder.empty /\
  fst (ResultHolder.get twice) = Value 2 /\
  (exists both,
      ResultHolder.store_exception Cancelled once = Value both /\
      ResultHolderImpl.holds_value both = true /\
      ResultHolderImpl.holds_failure both = true) /\
  (exists failed : ResultHolder.t Z,
      ResultHolder.store_exception Cancelled ResultHolder.empty = Value failed /\
      ResultHolder.store_exception (StdException "again") failed
      = Fault (AssertionFailed "eptr_ == nullptr")) /\
  ResultHolderImpl.storage_ dead = ResultHolderImpl.Destroyed /\
  fst (ResultHolder.get dead)
  = Fault (Undefined "read of an object that is not alive").
Proof.
  cbv zeta. repeat split.
  - eexists. repeat split.
  - eexists. split; reflexivity.
Qed.




(** C7, amended. A failure with which the callable exits reaches the top
    frame of the coroutine. When it derives from [std::exception]
    ([Cancelled] among them) it is caught there: the task is complete, the
    slot holds that failure and [get_result] throws it again. A failure of
    any other type is not caught there and is not stored: it leaves the
    coroutine function, the program stops, the task is not complete, its
    slot is empty and [get_result] does not throw that failure. *)
Theorem std_failure_captured_and_rethrown (T : Type) `{CppType T}
    (count : Z) (callable : code T) (s0 : TaskImpl.t T) (count' : Z)
    (evs0 : list (event T)) (ops : list Driver.op) (e : exception) :
  TaskImpl.create count callable = Value (s0, count', evs0) ->
  let m := Driver.exec ops (Driver.start s0 evs0) in
  In (CallableThrew e) (Driver.trace m) ->
  (is_std_exception e = true ->
   TaskImpl.is_complete (Driver.task m) = true /\
   ResultHolderImpl.eptr_ (TaskImpl.result_ (Driver.task m)) = Some e /\
   ResultHolderImpl.holds_value (TaskImpl.result_ (Driver.task m)) = false /\
   fst (TaskImpl.get_result (Driver.task m)) = Throws e) /\
  (is_std_exception e = false ->
   Driver.halted m = Some (Terminated e) /\
   TaskImpl.is_complete (Driver.task m) = false /\
   TaskImpl.result_ (Driver.task m) = ResultHolder.empty /\
   fst (TaskImpl.get_result (Driver.task m)) <> Throws e).
Proof.
  intros Hc m Hin.
  apply create_inv in Hc. destruct Hc as (-> & _ & ->).
  pose proof (exec_lifecycle ops (constructed_lifecycle (count + 1) callable)) as L.
  fold m in L.
  pose proof (In_exits _ _ Hin eq_refl) as Hex.
  split; intros Hstd.
  - destruct L as [Hn Hr Hx | v Hk Hr Hx | e' Hk Hs Hr Hx | e' Hn Hh Hs Hr Hx];
      rewrite Hx in Hex; cbn in Hex.
    + destruct Hex.
    + destruct Hex as [E | []]. discriminate.
    + destruct Hex as [E | []]. inversion E; subst e'.
      unfold TaskImpl.is_complete, TaskImpl.get_result. rewrite Hk, Hr. repeat split.
    + destruct Hex as [E | []]. inversion E; subst e'. congruence.
  - destruct L as [Hn Hr Hx | v Hk Hr Hx | e' Hk Hs Hr Hx | e' Hn Hh Hs Hr Hx];
      rewrite Hx in Hex; cbn in Hex.
    + destruct Hex.
    + destruct Hex as [E | []]. discriminate.
    + destruct Hex as [E | []]. inversion E; subst e'. congruence.
    + destruct Hex as [E | []]. inversion E; subst e'.
      split; [exact Hh | split; [exact Hn | split; [exact Hr |]]].
      unfold TaskImpl.get_result. rewrite Hr. cbn. discriminate.
Qed.

(** The statement above at a task cancelled while suspended, whose callable
    does not catch [Cancelled], and at a task whose callable does
    [throw 42;]. *)
Lemma std_failure_captured_and_rethrown_witness :
  let m := Driver.exec [Driver.Resume; Driver.Cancel; Driver.Resume]
             (Driver.start (constructed 1 Samples.yield_once) []) in
  let f := Driver.exec [Driver.Resume]
             (Driver.start (constructed 1 Samples.throws_int) []) in
  (TaskImpl.is_complete (Driver.task m) = true /\
   ResultHolderImpl.eptr_ (TaskImpl.result_ (Driver.task m)) = Some Cancelled /\
   ResultHolderImpl.holds_value (TaskImpl.result_ (Driver.task m)) = false /\
   fst (TaskImpl.get_result (Driver.task m)) = Throws Cancelled) /\
  (Driver.halted f = Some (Terminated (Foreign 42)) /\
   TaskImpl.is_complete (Driver.task f) = false /\
   TaskImpl.result_ (Driver.task f) = ResultHolder.empty /\
   fst (TaskImpl.get_result (Driver.task f)) <> Throws (Foreign 42)).
Proof.
  intros m f. split.
  - refine (proj1 (@std_failure_captured_and_rethrown Z _ 0 Samples.yield_once
                     (constructed 1 Samples.yield_once) 1 []
                     [Driver.Resume; Driver.Cancel; Driver.Resume] Cancelled eq_refl _)
              eq_refl).
    cbn. right. right. left. reflexivity.
  - refine (proj2 (@std_failure_captured_and_rethrown Z _ 0 Samples.throws_int
                     (constructed 1 Samples.throws_int) 1 []
                     [Driver.Resume] (Foreign 42) eq_refl _)
              eq_refl).
    cbn. left. reflexivity.
Defined.

(** C7 as stated fails: a callable that exits by [throw 42;] reaches the top
    frame, whose handler does not match; the failure leaves the coroutine
    function, the slot stays empty and [get_result] does not throw it. *)
Lemma foreign_failure_not_captured :
  let m := Driver.exec [Driver.Resume] (Samples.first_task Samples.throws_int) in
  Driver.trace m = [CallableThrew (Foreign 42)] /\
  Driver.halted m = Some (Terminated (Foreign 42)) /\
  TaskImpl.result_ (Driver.task m) = ResultHolder.empty /\
  fst (TaskImpl.get_result (Driver.task m)) <> Throws (Foreign 42).
Proof. cbv zeta. repeat split. cbv. discriminate. Qed.

(* ===================================================================== *)
(** ** Construction                                                       *)
(* ===================================================================== *)

(** C8. Unless the ids have run out, constructing a task from a callable
    succeeds without running any of the callable: nothing was observed, the
    coroutine is stopped at the entry barrier with the whole callable still
    to run, the slot is empty, and the first [resume()] is the execution of
    the callable from its first statement. *)
Theorem constructor_stops_at_entry_barrier (T : Type) `{CppType T}
    (count : Z) (callable : code T) :
  count <> TaskImpl.UINT64_MAX ->
  exists s : TaskImpl.t T,
    TaskImpl.create count callable = Value (s, count + 1, []) /\
    TaskImpl.coroutine_ s = EntryBarrier callable /\
    TaskImpl.is_complete s = false /\
    TaskImpl.result_ s = ResultHolder.empty /\
    TaskImpl.resume s = TaskImpl.run callable s /\
    (forall n k, callable = Emit n k ->
                 exists evs, snd (TaskImpl.resume s) = UserAction n :: evs).
Proof.
  intros Hne. exists (constructed (count + 1) callable).
  split; [apply create_value; exact Hne |].
  repeat split.
  intros n k ->. unfold TaskImpl.resume, TaskImpl.call. cbn [constructed TaskImpl.coroutine_].
  cbn [TaskImpl.run]. rewrite emit_snd. eexists. reflexivity.
Qed.

(** The statement above at the first task of a process, whose callable
    starts with an observable action. *)
Lemma constructor_stops_at_entry_barrier_witness :
  exists s : TaskImpl.t Z,
    TaskImpl.create 0 Samples.yield_once = Value (s, 0 + 1, []) /\
    TaskImpl.coroutine_ s = EntryBarrier Samples.yield_once /\
    TaskImpl.is_complete s = false /\
    TaskImpl.result_ s = ResultHolder.empty /\
    TaskImpl.resume s = TaskImpl.run Samples.yield_once s /\
    (forall n k, Samples.yield_once = Emit n k ->
                 exists evs, snd (TaskImpl.resume s) = UserAction n :: evs).
Proof.
  apply (@constructor_stops_at_entry_barrier Z _ 0 Samples.yield_once).
  unfold TaskImpl.UINT64_MAX. lia.
Defined.

(* ===================================================================== *)
(** ** The wait count                                                     *)
(* ===================================================================== *)

Section WaitCountFacts.
Context {T : Type} `{CppType T}.

Lemma step_wait_count_in_range (m : Driver.machine T) (o : Driver.op) :
  wait_count_in_range (Driver.task m) ->
  wait_count_in_range (Driver.task (Driver.step m o)).
Proof.
  unfold wait_count_in_range, TaskImpl.wait_count. intros R. unfold Driver.step.
  destruct (Driver.halted m); [exact R |].
  destruct o as [ | | | | val]; try exact R.
  - unfold TaskImpl.resume.
    pose proof (call_keeps (Driver.task m)) as K.
    destruct (TaskImpl.call (Driver.task m)) as [[tr s] evs].
    cbn [fst snd] in K. destruct K as (_ & K & _).
    cbn [Driver.task]. rewrite K. exact R.
  - cbn [Driver.task TaskImpl.incr_wait_count TaskImpl.with_wait_count
         TaskImpl.wait_count_].
    apply Z.mod_pos_bound. unfold TaskImpl.UINT_MODULUS. lia.
  - unfold TaskImpl.decr_wait_count, ELL_ASSERT.
    destruct (0 <? TaskImpl.wait_count_ (Driver.task m)); [| exact R].
    cbn [Driver.task TaskImpl.with_wait_count TaskImpl.wait_count_].
    apply Z.mod_pos_bound. unfold TaskImpl.UINT_MODULUS. lia.
Qed.

Lemma exec_wait_count_in_range (ops : list Driver.op) (m : Driver.machine T) :
  wait_count_in_range (Driver.task m) ->
  wait_count_in_range (Driver.task (Driver.exec ops m)).
Proof.
  revert m. induction ops as [| o ops IH]; intros m R; [exact R |].
  cbn [Driver.exec fold_left]. apply IH. apply step_wait_count_in_range. exact R.
Qed.

End WaitCountFacts.

(** C9. Over any sequence of member calls on a constructed task,
    [wait_count()] reports a number between 0 and the largest
    [unsigned int]. Where it reports 0, [decr_wait_count] fails its
    assertion and the program stops there; where it reports more,
    [decr_wait_count] takes exactly one off. *)
Theorem wait_count_never_negative (T : Type) `{CppType T}
    (count : Z) (callable : code T) (s0 : TaskImpl.t T) (count' : Z)
    (evs0 : list (event T)) (ops : list Driver.op) :
  TaskImpl.create count callable = Value (s0, count', evs0) ->
  let m := Driver.exec ops (Driver.start s0 evs0) in
  0 <= TaskImpl.wait_count (Driver.task m) < TaskImpl.UINT_MODULUS /\
  (TaskImpl.wait_count (Driver.task m) = 0 ->
   TaskImpl.decr_wait_count (Driver.task m)
   = Fault (AssertionFailed "wait_count cannot be negative.") /\
   (Driver.halted m = None ->
    Driver.halted (Driver.step m Driver.DecrWaitCount)
    = Some (AssertionFailed "wait_count cannot be negative."))) /\
  (0 < TaskImpl.wait_count (Driver.task m) ->
   exists s', TaskImpl.decr_wait_count (Driver.task m) = Value s' /\
              TaskImpl.wait_count s' = TaskImpl.wait_count (Driver.task m) - 1).
Proof.
  intros Hc m.
  apply create_inv in Hc. destruct Hc as (-> & _ & ->).
  assert (R : wait_count_in_range (Driver.task m)).
  { apply exec_wait_count_in_range. unfold wait_count_in_range, TaskImpl.UINT_MODULUS.
    cbn. lia. }
  unfold wait_count_in_range, TaskImpl.wait_count in *.
  split; [exact R | split].
  - intros Z0.
    assert (D : TaskImpl.decr_wait_count (Driver.task m)
                = Fault (AssertionFailed "wait_count cannot be negative.")).
    { unfold TaskImpl.decr_wait_count, ELL_ASSERT. rewrite Z0. reflexivity. }
    split; [exact D |].
    intros Hh. unfold Driver.step. rewrite Hh, D. reflexivity.
  - intros Pos. unfold TaskImpl.decr_wait_count, ELL_ASSERT.
    destruct (Z.ltb_spec 0 (TaskImpl.wait_count_ (Driver.task m))) as [_ | Hle]; [| lia].
    eexists. split; [reflexivity |].
    cbn [TaskImpl.with_wait_count TaskImpl.wait_count_].
    apply Z.mod_small. lia.
Qed.

(** The statement above at a task whose count went up twice and down twice. *)
Lemma wait_count_never_negative_witness :
  let m := Driver.exec [Driver.IncrWaitCount; Driver.IncrWaitCount;
                        Driver.DecrWaitCount; Driver.DecrWaitCount]
             (Driver.start (constructed 1 Samples.yield_once) []) in
  0 <= TaskImpl.wait_count (Driver.task m) < TaskImpl.UINT_MODULUS /\
  TaskImpl.decr_wait_count (Driver.task m)
  = Fault (AssertionFailed "wait_count cannot be negative.").
Proof.
  intros m.
  destruct (@wait_count_never_negative Z _ 0 Samples.yield_once
              (constructed 1 Samples.yield_once) 1 []
              [Driver.IncrWaitCount; Driver.IncrWaitCount;
               Driver.DecrWaitCount; Driver.DecrWaitCount] eq_refl) as (A & B & _).
  split; [exact A |]. exact (proj1 (B eq_refl)).
Defined.

(* ===================================================================== *)
(** ** The current loop                                                   *)
(* ===================================================================== *)

(** C10. The thread-local starts out null and is null again once a loop has
    set it back to null, and [get_current_event_loop] reads it without
    changing it. [yield()] and [sleep(duration)] make their member call
    through whatever pointer they get: through a null one when no loop is
    current, which is undefined behaviour and not a reported failure, and to
    the loop at that address otherwise. *)
Theorem free_functions_dereference_null_loop (D : Type) :
  fst (Ell.get_current_event_loop Ell.current_loop_initial) = None /\
  (forall cl : Ell.EventLoop_ptr,
      fst (Ell.get_current_event_loop (snd (Ell.set_current_event_loop None true cl)))
      = None) /\
  (forall cl : Ell.EventLoop_ptr, snd (Ell.get_current_event_loop cl) = cl) /\
  (forall cl : Ell.EventLoop_ptr,
      fst (Ell.get_current_event_loop cl) = None ->
      Ell.yield (D := D) cl
      = Fault (Undefined "member call through a null EventLoop pointer") /\
      forall d : D,
        Ell.sleep d cl
        = Fault (Undefined "member call through a null EventLoop pointer")) /\
  (forall (cl : Ell.EventLoop_ptr) (a : Z),
      fst (Ell.get_current_event_loop cl) = Some a ->
      Ell.yield (D := D) cl = Value (a, Ell.suspend_current_task) /\
      forall d : D, Ell.sleep d cl = Value (a, Ell.sleep_current_task d)).
Proof.
  split; [reflexivity |].
  split; [intros cl; reflexivity |].
  split; [intros cl; reflexivity |].
  split.
  - intros cl E. unfold Ell.yield, Ell.sleep. rewrite E. split; [reflexivity |].
    intros d. reflexivity.
  - intros cl a E. unfold Ell.yield, Ell.sleep. rewrite E. split; [reflexivity |].
    intros d. reflexivity.
Qed.

(** The statement above on a thread where no loop ever ran, with a sleep of
    1500 milliseconds, and on one whose loop lives at address 4096. *)
Lemma free_functions_dereference_null_loop_witness :
  Ell.sleep 1500 Ell.current_loop_initial
  = Fault (Undefined "member call through a null EventLoop pointer") /\
  Ell.yield (D := Z) (snd (Ell.set_current_event_loop (Some 4096) true None))
  = Value (4096, Ell.suspend_current_task).
Proof.
  destruct (free_functions_dereference_null_loop Z) as (_ & _ & _ & A & B).
  split.
  - exact (proj2 (A Ell.current_loop_initial eq_refl) 1500).
  - exact (proj1 (B (snd (Ell.set_current_event_loop (Some 4096) true None)) 4096 eq_refl)).
Defined.

(* ===================================================================== *)
(** ** Further properties: bookkeeping members                            *)
(* ===================================================================== *)

Section BookkeepingFacts.
Context {T : Type} `{CppType T}.

(** Once the program has stopped, no call does anything. *)
Lemma exec_halted (ops : list Driver.op) (m : Driver.machine T) (f : fault) :
  Driver.halted m = Some f -> Driver.exec ops m = m.
Proof.
  intros Hh. induction ops as [| o ops IH]; [reflexivity |].
  cbn [Driver.exec fold_left]. unfold Driver.step at 2. rewrite Hh. exact IH.
Qed.

Lemma exec_cons (o : Driver.op) (ops : list Driver.op) (m : Driver.machine T) :
  Driver.exec (o :: ops) m = Driver.exec ops (Driver.step m o).
Proof. reflexivity. Qed.

(** A sequence that ends running started running. *)
Lemma exec_running_start (ops : list Driver.op) (m : Driver.machine T) :
  Driver.halted (Driver.exec ops m) = None -> Driver.halted m = None.
Proof.
  intros E. destruct (Driver.halted m) as [f |] eqn:Hh; [| reflexivity].
  rewrite (exec_halted ops m Hh) in E. congruence.
Qed.

Lemma step_keeps_id (m : Driver.machine T) (o : Driver.op) :
  TaskImpl.id (Driver.task (Driver.step m o)) = TaskImpl.id (Driver.task m).
Proof.
  unfold Driver.step, TaskImpl.id.
  destruct (Driver.halted m); [reflexivity |].
  destruct o as [ | | | | val]; try reflexivity.
  - unfold TaskImpl.resume.
    pose proof (call_keeps (Driver.task m)) as K.
    destruct (TaskImpl.call (Driver.task m)) as [[tr s] evs].
    cbn [fst snd] in K. cbn. tauto.
  - unfold TaskImpl.decr_wait_count, ELL_ASSERT.
    destruct (0 <? TaskImpl.wait_count_ (Driver.task m)); reflexivity.
Qed.

(** What one call that does not stop the program does to [is_active_] and
    to [wait_count_]. *)
Lemma step_running (m : Driver.machine T) (o : Driver.op) :
  Driver.halted m = None ->
  Driver.halted (Driver.step m o) = None ->
  TaskImpl.is_active (Driver.task (Driver.step m o))
  = match o with
    | Driver.SetActive val => val
    | _ => TaskImpl.is_active (Driver.task m)
    end /\
  TaskImpl.wait_count (Driver.task (Driver.step m o))
  = match o with
    | Driver.IncrWaitCount =>
        (TaskImpl.wait_count (Driver.task m) + 1) mod TaskImpl.UINT_MODULUS
    | Driver.DecrWaitCount =>
        (TaskImpl.wait_count (Driver.task m) - 1) mod TaskImpl.UINT_MODULUS
    | _ => TaskImpl.wait_count (Driver.task m)
    end /\
  (o = Driver.DecrWaitCount -> 0 < TaskImpl.wait_count (Driver.task m)).
Proof.
  intros Hm. unfold Driver.step. rewrite Hm.
  unfold TaskImpl.is_active, TaskImpl.wait_count.
  destruct o as [ | | | | val]; try (intros _; repeat split; discriminate).
  - unfold TaskImpl.resume.
    pose proof (call_keeps (Driver.task m)) as K.
    destruct (TaskImpl.call (Driver.task m)) as [[tr s] evs].
    cbn [fst snd] in K. destruct K as (_ & K1 & _ & K2).
    intros _. cbn [Driver.task]. repeat split; try assumption. discriminate.
  - unfold TaskImpl.decr_wait_count, ELL_ASSERT.
    destruct (Z.ltb_spec 0 (TaskImpl.wait_count_ (Driver.task m))) as [Pos | _].
    + intros _. repeat split. intros _. exact Pos.
    + cbn. discriminate.
Qed.

Lemma incrs_cons (o : Driver.op) (ops : list Driver.op) :
  incrs (o :: ops) = (b2n (is_incr o) + incrs ops)%nat.
Proof. unfold incrs. cbn [filter]. destruct (is_incr o); reflexivity. Qed.

Lemma decrs_cons (o : Driver.op) (ops : list Driver.op) :
  decrs (o :: ops) = (b2n (is_decr o) + decrs ops)%nat.
Proof. unfold decrs. cbn [filter]. destruct (is_decr o); reflexivity. Qed.

Lemma exec_wait_count_balance (ops : list Driver.op) (m : Driver.machine T) :
  Driver.halted (Driver.exec ops m) = None ->
  0 <= TaskImpl.wait_count (Driver.task m) ->
  TaskImpl.wait_count (Driver.task m) + Z.of_nat (incrs ops) < TaskImpl.UINT_MODULUS ->
  TaskImpl.wait_count (Driver.task (Driver.exec ops m))
  = TaskImpl.wait_count (Driver.task m) + Z.of_nat (incrs ops) - Z.of_nat (decrs ops).
Proof.
  revert m. induction ops as [| o ops IH]; intros m Hend Hlo Hhi.
  - cbn. unfold incrs, decrs. cbn. lia.
  - rewrite exec_cons in *.
    pose proof (exec_running_start _ _ Hend) as Hstep.
    assert (Hm : Driver.halted m = None).
    { destruct (Driver.halted m) as [f |] eqn:Hh; [| reflexivity].
      unfold Driver.step in Hstep. rewrite Hh in Hstep. congruence. }
    destruct (step_running m o Hm Hstep) as (_ & W & P).
    rewrite incrs_cons in Hhi. rewrite incrs_cons, decrs_cons.
    unfold TaskImpl.UINT_MODULUS in *.
    destruct o as [ | | | | val]; cbn [is_incr is_decr b2n] in *.
    + rewrite IH; try assumption; rewrite W; lia.
    + rewrite IH; try assumption; rewrite W; lia.
    + rewrite Z.mod_small in W by lia.
      rewrite IH; try assumption; rewrite W; lia.
    + specialize (P eq_refl). rewrite Z.mod_small in W by lia.
      rewrite IH; try assumption; rewrite W; lia.
    + rewrite IH; try assumption; rewrite W; lia.
Qed.

Lemma exec_is_active (ops : list Driver.op) (m : Driver.machine T) :
  Driver.halted (Driver.exec ops m) = None ->
  TaskImpl.is_active (Driver.task (Driver.exec ops m))
  = last_active ops (TaskImpl.is_active (Driver.task m)).
Proof.
  revert m. induction ops as [| o ops IH]; intros m Hend; [reflexivity |].
  rewrite exec_cons in *.
  pose proof (exec_running_start _ _ Hend) as Hstep.
  assert (Hm : Driver.halted m = None).
  { destruct (Driver.halted m) as [f |] eqn:Hh; [| reflexivity].
    unfold Driver.step in Hstep. rewrite Hh in Hstep. congruence. }
  destruct (step_running m o Hm Hstep) as (A & _).
  rewrite (IH _ Hend), A. unfold last_active. cbn [fold_left].
  destruct o; reflexivity.
Qed.

Lemma with_wait_count_same (s : TaskImpl.t T) :
  TaskImpl.with_wait_count (TaskImpl.wait_count_ s) s = s.
Proof. destruct s. reflexivity. Qed.

End BookkeepingFacts.

(** X1. Tasks constructed one after the other get the ids that follow the
    counter, one apart and so all different; the constructions succeed as
    long as the counter stays within 64 bits. *)
Theorem create_many_ids (T : Type) `{CppType T} (callables : list (code T)) (count : Z) :
  count + Z.of_nat (List.length callables) <= TaskImpl.UINT64_MAX ->
  exists tasks : list (TaskImpl.t T),
    Process.create_many count callables
    = Value (tasks, count + Z.of_nat (List.length callables)) /\
    map TaskImpl.id tasks
    = map (fun i => count + 1 + Z.of_nat i) (seq 0 (List.length callables)) /\
    NoDup (map TaskImpl.id tasks).
Proof.
  revert count. induction callables as [| c rest IH]; intros count Hb.
  - exists []. cbn. rewrite Z.add_0_r. repeat split. constructor.
  - cbn [List.length] in Hb.
    assert (Hne : count <> TaskImpl.UINT64_MAX) by lia.
    destruct (IH (count + 1)) as (tasks & E & Ids & _); [lia |].
    exists (constructed (count + 1) c :: tasks).
    assert (Ids' : map TaskImpl.id (constructed (count + 1) c :: tasks)
                   = map (fun i => count + 1 + Z.of_nat i)
                       (seq 0 (List.length (c :: rest)))).
    { cbn [map List.length seq]. f_equal; [cbn; lia |].
      rewrite Ids, <- seq_shift, map_map. apply map_ext. intros i. lia. }
    split; [| split; [exact Ids' |]].
    + cbn [Process.create_many]. rewrite (create_value c Hne), E.
      do 2 f_equal. cbn [List.length]. lia.
    + rewrite Ids'. apply NoDup_map_NoDup_ForallPairs; [| apply seq_NoDup].
      intros i j _ _ E'. lia.
Qed.

(** The statement above at three tasks, the first of a process. *)
Lemma create_many_ids_witness :
  exists tasks : list (TaskImpl.t Z),
    Process.create_many 0
      [Samples.yield_once; Samples.cleanup_on_cancel; Samples.throws_int]
    = Value (tasks, 0 + 3) /\
    map TaskImpl.id tasks = [0 + 1 + 0; 0 + 1 + 1; 0 + 1 + 2] /\
    NoDup (map TaskImpl.id tasks).
Proof.
  apply (@create_many_ids Z _
           [Samples.yield_once; Samples.cleanup_on_cancel; Samples.throws_int] 0).
  unfold TaskImpl.UINT64_MAX. cbn. lia.
Defined.

(** X2. When the counter has reached the largest 64-bit value, the next
    construction fails the assertion of [next_id], and so does every
    sequence of constructions that would go past it. *)
Theorem create_many_runs_out (T : Type) `{CppType T}
    (callables : list (code T)) (count : Z) :
  count <= TaskImpl.UINT64_MAX ->
  TaskImpl.UINT64_MAX < count + Z.of_nat (List.length callables) ->
  Process.create_many count callables = Fault (AssertionFailed "Running out of ids.").
Proof.
  revert count. induction callables as [| c rest IH]; intros count Hle Hgt.
  - cbn [List.length] in Hgt. lia.
  - cbn [Process.create_many].
    destruct (Z.eq_dec count TaskImpl.UINT64_MAX) as [-> | Hne].
    + reflexivity.
    + rewrite (create_value c Hne). rewrite IH; [reflexivity | lia |].
      cbn [List.length] in Hgt. lia.
Qed.

(** The statement above with one id left and two tasks to construct. *)
Lemma create_many_runs_out_witness :
  Process.create_many (TaskImpl.UINT64_MAX - 1) [Samples.yield_once; Samples.throws_int]
  = Fault (AssertionFailed "Running out of ids.").
Proof.
  apply (@create_many_runs_out Z _ [Samples.yield_once; Samples.throws_int]
           (TaskImpl.UINT64_MAX - 1)).
  - lia.
  - cbn [List.length]. lia.
Defined.

(** X3. The id of a task is the one its constructor drew, and no sequence of
    member calls changes it. *)
Theorem id_is_fixed (T : Type) `{CppType T}
    (count : Z) (callable : code T) (s0 : TaskImpl.t T) (count' : Z)
    (evs0 : list (event T)) (ops : list Driver.op) :
  TaskImpl.create count callable = Value (s0, count', evs0) ->
  TaskImpl.id (Driver.task (Driver.exec ops (Driver.start s0 evs0))) = count + 1 /\
  count' = count + 1.
Proof.
  intros Hc. apply create_inv in Hc. destruct Hc as (-> & -> & ->).
  split; [| reflexivity].
  assert (G : forall m : Driver.machine T,
             TaskImpl.id (Driver.task (Driver.exec ops m)) = TaskImpl.id (Driver.task m)).
  { induction ops as [| o ops IH]; intros m; [reflexivity |].
    rewrite exec_cons, IH. apply step_keeps_id. }
  rewrite G. reflexivity.
Qed.

(** The statement above at the first task of a process, after some calls. *)
Lemma id_is_fixed_witness :
  TaskImpl.id
    (Driver.task
       (Driver.exec [Driver.Resume; Driver.Cancel; Driver.IncrWaitCount; Driver.Resume]
          (Driver.start (constructed 1 Samples.yield_once) []))) = 0 + 1 /\
  1 = 0 + 1.
Proof.
  exact (@id_is_fixed Z _ 0 Samples.yield_once (constructed 1 Samples.yield_once) 1 []
           [Driver.Resume; Driver.Cancel; Driver.IncrWaitCount; Driver.Resume] eq_refl).
Defined.

(** X4. [is_active()] is a cache in the hands of the caller: after a
    sequence of member calls that did not stop the program it answers the
    argument of the last [set_active], or [false] when there was none;
    running the coroutine, cancelling and counting never touch it. *)
Theorem is_active_is_last_set (T : Type) `{CppType T}
    (count : Z) (callable : code T) (s0 : TaskImpl.t T) (count' : Z)
    (evs0 : list (event T)) (ops : list Driver.op) :
  TaskImpl.create count callable = Value (s0, count', evs0) ->
  let m := Driver.exec ops (Driver.start s0 evs0) in
  Driver.halted m = None ->
  TaskImpl.is_active (Driver.task m) = last_active ops false.
Proof.
  intros Hc m Hend. apply create_inv in Hc. destruct Hc as (-> & _ & ->).
  subst m. rewrite (exec_is_active _ _ Hend). reflexivity.
Qed.

(** The statement above at a task set active, run, and set inactive. *)
Lemma is_active_is_last_set_witness :
  TaskImpl.is_active
    (Driver.task
       (Driver.exec [Driver.SetActive true; Driver.Resume; Driver.SetActive false;
                     Driver.Cancel]
          (Driver.start (constructed 1 Samples.yield_once) []))) = false.
Proof.
  exact (@is_active_is_last_set Z _ 0 Samples.yield_once
           (constructed 1 Samples.yield_once) 1 []
           [Driver.SetActive true; Driver.Resume; Driver.SetActive false; Driver.Cancel]
           eq_refl eq_refl).
Defined.

(** X5. After a sequence of member calls that did not stop the program, with
    fewer than 2^32 increments, [wait_count()] is the number of
    [incr_wait_count] calls minus the number of [decr_wait_count] calls;
    resuming and cancelling do not count. *)
Theorem wait_count_is_balance (T : Type) `{CppType T}
    (count : Z) (callable : code T) (s0 : TaskImpl.t T) (count' : Z)
    (evs0 : list (event T)) (ops : list Driver.op) :
  TaskImpl.create count callable = Value (s0, count', evs0) ->
  let m := Driver.exec ops (Driver.start s0 evs0) in
  Driver.halted m = None ->
  Z.of_nat (incrs ops) < TaskImpl.UINT_MODULUS ->
  TaskImpl.wait_count (Driver.task m) = Z.of_nat (incrs ops) - Z.of_nat (decrs ops) /\
  (decrs ops <= incrs ops)%nat.
Proof.
  intros Hc m Hend Hlt. apply create_inv in Hc. destruct Hc as (-> & _ & ->).
  assert (B : TaskImpl.wait_count (Driver.task m)
              = Z.of_nat (incrs ops) - Z.of_nat (decrs ops)).
  { subst m. rewrite (exec_wait_count_balance _ _ Hend);
      change (TaskImpl.wait_count
                (Driver.task (Driver.start (constructed (count + 1) callable) [])))
        with 0; lia. }
  split; [exact B |].
  pose proof (@exec_wait_count_in_range T _ ops
                (Driver.start (constructed (count + 1) callable) [])) as R.
  fold m in R. unfold wait_count_in_range in R.
  assert (R0 : 0 <= TaskImpl.wait_count (Driver.task m)).
  { apply R. cbn. unfold TaskImpl.UINT_MODULUS. lia. }
  lia.
Qed.

(** The statement above at a task that waits for two wakes and gets one. *)
Lemma wait_count_is_balance_witness :
  TaskImpl.wait_count
    (Driver.task
       (Driver.exec [Driver.IncrWaitCount; Driver.IncrWaitCount; Driver.Resume;
                     Driver.DecrWaitCount]
          (Driver.start (constructed 1 Samples.yield_once) []))) = 2 - 1 /\
  (1 <= 2)%nat.
Proof.
  refine (@wait_count_is_balance Z _ 0 Samples.yield_once
            (constructed 1 Samples.yield_once) 1 []
            [Driver.IncrWaitCount; Driver.IncrWaitCount; Driver.Resume;
             Driver.DecrWaitCount] eq_refl eq_refl _).
  unfold TaskImpl.UINT_MODULUS. cbn. lia.
Defined.

(** X6. Below the largest [unsigned int], [incr_wait_count] followed by
    [decr_wait_count] gives back the very same task. At the largest value
    the increment wraps to 0, and the decrement that follows fails its
    assertion. *)
Theorem incr_then_decr (T : Type) `{CppType T} (s : TaskImpl.t T) :
  0 <= TaskImpl.wait_count s < TaskImpl.UINT_MODULUS ->
  (TaskImpl.wait_count s < TaskImpl.UINT_MODULUS - 1 ->
   TaskImpl.decr_wait_count (TaskImpl.incr_wait_count s) = Value s) /\
  (TaskImpl.wait_count s = TaskImpl.UINT_MODULUS - 1 ->
   TaskImpl.wait_count (TaskImpl.incr_wait_count s) = 0 /\
   TaskImpl.decr_wait_count (TaskImpl.incr_wait_count s)
   = Fault (AssertionFailed "wait_count cannot be negative.")).
Proof.
  unfold TaskImpl.wait_count, TaskImpl.UINT_MODULUS. intros R. split.
  - intros Hlt. unfold TaskImpl.decr_wait_count, TaskImpl.incr_wait_count, ELL_ASSERT.
    cbn [TaskImpl.with_wait_count TaskImpl.wait_count_]. unfold TaskImpl.UINT_MODULUS.
    rewrite (Z.mod_small (TaskImpl.wait_count_ s + 1)) by lia.
    destruct (Z.ltb_spec 0 (TaskImpl.wait_count_ s + 1)) as [_ | Hle]; [| lia].
    replace (TaskImpl.wait_count_ s + 1 - 1) with (TaskImpl.wait_count_ s) by lia.
    rewrite Z.mod_small by lia. f_equal. destruct s. reflexivity.
  - intros Hmax.
    assert (W : TaskImpl.wait_count_ (TaskImpl.incr_wait_count s) = 0).
    { cbn [TaskImpl.incr_wait_count TaskImpl.with_wait_count TaskImpl.wait_count_].
      unfold TaskImpl.UINT_MODULUS. rewrite Hmax.
      replace (2 ^ 32 - 1 + 1) with (2 ^ 32) by lia. apply Z.mod_same. lia. }
    split; [exact W |].
    unfold TaskImpl.decr_wait_count, ELL_ASSERT. rewrite W. reflexivity.
Qed.

(** The statement above at a freshly constructed task. *)
Lemma incr_then_decr_witness :
  TaskImpl.decr_wait_count (TaskImpl.incr_wait_count (constructed 1 Samples.yield_once))
  = Value (constructed 1 Samples.yield_once).
Proof.
  apply (@incr_then_decr Z _ (constructed 1 Samples.yield_once)).
  - unfold TaskImpl.UINT_MODULUS. cbn. lia.
  - unfold TaskImpl.UINT_MODULUS. cbn. lia.
Defined.

(* ===================================================================== *)
(** ** Further properties: the life of a task                             *)
(* ===================================================================== *)

Section CompletionFacts.
Context {T : Type} `{CppType T}.

Lemma step_after_completion (m : Driver.machine T) (o : Driver.op) :
  TaskImpl.coroutine_ (Driver.task m) = Complete ->
  TaskImpl.coroutine_ (Driver.task (Driver.step m o)) = Complete /\
  TaskImpl.result_ (Driver.task (Driver.step m o)) = TaskImpl.result_ (Driver.task m) /\
  Driver.trace (Driver.step m o) = Driver.trace m.
Proof.
  intros Hc. unfold Driver.step.
  destruct (Driver.halted m); [repeat split; assumption |].
  destruct o as [ | | | | val]; try (repeat split; assumption).
  - unfold TaskImpl.resume. rewrite (call_complete _ Hc).
    cbn [Driver.task Driver.trace]. rewrite app_nil_r. repeat split. exact Hc.
  - unfold TaskImpl.decr_wait_count, ELL_ASSERT.
    destruct (0 <? TaskImpl.wait_count_ (Driver.task m)); repeat split; assumption.
Qed.

Lemma holds_after_store (v : T) :
  ResultHolderImpl.holds_value (ResultHolder.store v ResultHolder.empty) = true /\
  ResultHolderImpl.holds_failure (ResultHolder.store v ResultHolder.empty) = false.
Proof.
  unfold ResultHolder.store, ResultHolderImpl.store.
  destruct (ResultHolderImpl.fits_inline ResultHolder.buffer_size_); split; reflexivity.
Qed.

Lemma run_fuel (c : code T) (s : TaskImpl.t T) :
  match fst (fst (TaskImpl.run c s)) with
  | Yielded => (fuel (TaskImpl.coroutine_ (snd (fst (TaskImpl.run c s)))) <= depth c)%nat
  | Finished => TaskImpl.coroutine_ (snd (fst (TaskImpl.run c s))) = Complete
  | Halted _ => True
  end.
Proof.
  induction c as [v | e | n k IH | k IHk h IHh]; cbn [TaskImpl.run].
  - reflexivity.
  - unfold TaskImpl.top_frame.
    destruct (is_std_exception e); [| exact I].
    destruct (ResultHolder.store_exception e (TaskImpl.result_ s)); cbn; auto.
  - rewrite emit_fst. exact IH.
  - destruct (TaskImpl.yield_ s); cbn; auto.
Qed.

(** A call either stops the program or leaves the coroutine with less fuel
    when it was a [resume()], and with the same fuel otherwise. *)
Lemma step_fuel (m : Driver.machine T) (o : Driver.op) :
  Driver.halted m = None ->
  Driver.halted (Driver.step m o) <> None \/
  (fuel (TaskImpl.coroutine_ (Driver.task (Driver.step m o))) + b2n (is_resume o)
   <= fuel (TaskImpl.coroutine_ (Driver.task m)))%nat.
Proof.
  intros Hm. unfold Driver.step. rewrite Hm.
  destruct o as [ | | | | val]; cbn [is_resume b2n];
    try (right; cbn; lia).
  - unfold TaskImpl.resume, TaskImpl.call.
    destruct (TaskImpl.coroutine_ (Driver.task m)) as [ | c | c | k h | ] eqn:Ec.
    + left. cbn. discriminate.
    + right. cbn. lia.
    + pose proof (run_fuel c (Driver.task m)) as F.
      destruct (TaskImpl.run c (Driver.task m)) as [[tr s] evs].
      cbn [fst snd] in F. cbn [Driver.task Driver.halted fuel].
      destruct tr; [right; lia | right; rewrite F; cbn; lia | left; discriminate].
    + destruct (TaskImpl.pending_cancel_ (Driver.task m)).
      * pose proof (run_fuel h (TaskImpl.with_pending_cancel false (Driver.task m))) as F.
        destruct (TaskImpl.run h (TaskImpl.with_pending_cancel false (Driver.task m)))
          as [[tr s] evs].
        cbn [fst snd] in F. cbn [TaskImpl.emit Driver.task Driver.halted fuel].
        destruct tr; [right; lia | right; rewrite F; cbn; lia | left; discriminate].
      * pose proof (run_fuel k (Driver.task m)) as F.
        destruct (TaskImpl.run k (Driver.task m)) as [[tr s] evs].
        cbn [fst snd] in F. cbn [Driver.task Driver.halted fuel].
        destruct tr; [right; lia | right; rewrite F; cbn; lia | left; discriminate].
    + left. cbn. discriminate.
  - unfold TaskImpl.decr_wait_count, ELL_ASSERT.
    destruct (0 <? TaskImpl.wait_count_ (Driver.task m)).
    + right. cbn. lia.
    + left. cbn. discriminate.
Qed.

Lemma resumes_cons (o : Driver.op) (ops : list Driver.op) :
  resumes (o :: ops) = (b2n (is_resume o) + resumes ops)%nat.
Proof. unfold resumes. cbn [filter]. destruct (is_resume o); reflexivity. Qed.

Lemma exec_runs_out_of_fuel (ops : list Driver.op) (m : Driver.machine T) :
  (fuel (TaskImpl.coroutine_ (Driver.task m)) <= resumes ops)%nat ->
  Driver.halted (Driver.exec ops m) <> None \/
  TaskImpl.is_complete (Driver.task (Driver.exec ops m)) = true.
Proof.
  revert m. induction ops as [| o ops IH]; intros m Hf.
  - right. cbn. unfold TaskImpl.is_complete.
    unfold resumes in Hf. cbn in Hf.
    destruct (TaskImpl.coroutine_ (Driver.task m)); cbn in Hf; try reflexivity; lia.
  - destruct (Driver.halted m) as [f |] eqn:Hm.
    + left. rewrite (exec_halted _ _ Hm). congruence.
    + rewrite exec_cons. rewrite resumes_cons in Hf.
      destruct (step_fuel m o Hm) as [Hh | Hd].
      * left. destruct (Driver.halted (Driver.step m o)) as [f |] eqn:Hs; [| congruence].
        rewrite (exec_halted _ _ Hs). congruence.
      * apply IH. lia.
Qed.

End CompletionFacts.

(** X7. Completion is final: on a task whose coroutine has returned, no
    sequence of member calls, [get_result] among them, runs the callable
    again, adds an event or makes the task incomplete. The result slot is
    written by [get_result] alone, and only by its moves: the slot is the
    one of completion after as many [get]s as [get_result] calls were made,
    it holds a value if and only if it did, and its failure is the same. *)
Theorem completion_is_final (T : Type) `{CppType T}
    (m : Driver.machine T) (calls : list Caller.call) :
  TaskImpl.coroutine_ (Driver.task m) = Complete ->
  let m' := Caller.exec calls m in
  TaskImpl.is_complete (Driver.task m') = true /\
  Driver.trace m' = Driver.trace m /\
  (exists n : nat,
      (n <= Caller.get_results calls)%nat /\
      TaskImpl.result_ (Driver.task m') = Process.gets n (TaskImpl.result_ (Driver.task m))) /\
  ResultHolderImpl.holds_value (TaskImpl.result_ (Driver.task m'))
  = ResultHolderImpl.holds_value (TaskImpl.result_ (Driver.task m)) /\
  ResultHolderImpl.eptr_ (TaskImpl.result_ (Driver.task m'))
  = ResultHolderImpl.eptr_ (TaskImpl.result_ (Driver.task m)).
Proof.
  intros Hc m'.
  assert (Keep : forall h : ResultHolder.t T,
             ResultHolderImpl.holds_value (snd (ResultHolder.get h))
             = ResultHolderImpl.holds_value h /\
             ResultHolderImpl.eptr_ (snd (ResultHolder.get h))
             = ResultHolderImpl.eptr_ h).
  { intros h. unfold ResultHolder.get, ResultHolderImpl.get, ResultHolderImpl.holds_value.
    destruct (ResultHolderImpl.eptr_ h) as [e |] eqn:Ee;
      [cbn [snd]; rewrite Ee; split; reflexivity |].
    destruct (ResultHolderImpl.obj_ h) as [ | | w] eqn:Eo.
    - cbn [snd]. rewrite Eo, Ee. split; reflexivity.
    - destruct (ResultHolderImpl.storage_ h); cbn; rewrite ?Eo, ?Ee; split; reflexivity.
    - cbn. split; reflexivity. }
  assert (Keeps : forall (n : nat) (h : ResultHolder.t T),
             ResultHolderImpl.holds_value (Process.gets n h)
             = ResultHolderImpl.holds_value h /\
             ResultHolderImpl.eptr_ (Process.gets n h) = ResultHolderImpl.eptr_ h).
  { induction n as [| n IH]; intros h; [split; reflexivity |].
    cbn [Process.gets]. destruct (Keep (Process.gets n h)) as (A & B).
    destruct (IH h) as (A' & B'). rewrite A, B. split; assumption. }
  assert (Shift : forall (n : nat) (h : ResultHolder.t T),
             Process.gets n (snd (ResultHolder.get h)) = Process.gets (S n) h).
  { induction n as [| n IH]; intros h; [reflexivity |].
    cbn [Process.gets] in *. rewrite IH. reflexivity. }
  assert (Step : forall (m1 : Driver.machine T) (c : Caller.call),
             TaskImpl.coroutine_ (Driver.task m1) = Complete ->
             TaskImpl.coroutine_ (Driver.task (Caller.step m1 c)) = Complete /\
             Driver.trace (Caller.step m1 c) = Driver.trace m1 /\
             (TaskImpl.result_ (Driver.task (Caller.step m1 c))
              = TaskImpl.result_ (Driver.task m1) \/
              (c = Caller.GetResult /\
               TaskImpl.result_ (Driver.task (Caller.step m1 c))
               = snd (ResultHolder.get (TaskImpl.result_ (Driver.task m1)))))).
  { intros m1 c Hc1. unfold Caller.step.
    destruct (Driver.halted m1); [repeat split; [assumption | left; reflexivity] |].
    destruct c as [o |].
    - destruct (step_after_completion m1 o Hc1) as (A & B & C).
      split; [exact A | split; [exact C | left; exact B]].
    - unfold TaskImpl.get_result.
      destruct (ResultHolder.get (TaskImpl.result_ (Driver.task m1))) as [r h1].
      cbn [Driver.task Driver.trace TaskImpl.with_result TaskImpl.coroutine_
           TaskImpl.result_ snd].
      split; [exact Hc1 | split; [reflexivity | right; split; reflexivity]]. }
  assert (Main : forall (l : list Caller.call) (m1 : Driver.machine T),
             TaskImpl.coroutine_ (Driver.task m1) = Complete ->
             TaskImpl.coroutine_ (Driver.task (Caller.exec l m1)) = Complete /\
             Driver.trace (Caller.exec l m1) = Driver.trace m1 /\
             exists n : nat,
               (n <= Caller.get_results l)%nat /\
               TaskImpl.result_ (Driver.task (Caller.exec l m1))
               = Process.gets n (TaskImpl.result_ (Driver.task m1))).
  { induction l as [| c l IH]; intros m1 Hc1.
    - split; [exact Hc1 | split; [reflexivity |]]. exists 0%nat. split; [lia | reflexivity].
    - change (Caller.exec (c :: l) m1) with (Caller.exec l (Caller.step m1 c)).
      destruct (Step m1 c Hc1) as (A & B & C).
      destruct (IH _ A) as (A' & B' & n & Hn & R).
      split; [exact A' | split; [rewrite B'; exact B |]].
      assert (Count : Caller.get_results (c :: l)
                      = (b2n (Caller.is_get_result c) + Caller.get_results l)%nat).
      { unfold Caller.get_results. cbn [filter].
        destruct (Caller.is_get_result c); reflexivity. }
      destruct C as [C | (-> & C)].
      + exists n. split; [rewrite Count; lia |]. rewrite R, C. reflexivity.
      + exists (S n). split; [rewrite Count; cbn [Caller.is_get_result b2n]; lia |].
        rewrite R, C. apply Shift. }
  destruct (Main calls m Hc) as (A & B & n & Hn & R). fold m' in A, B, R.
  split; [unfold TaskImpl.is_complete; rewrite A; reflexivity |].
  split; [exact B |].
  split; [exists n; split; assumption |].
  rewrite R. apply Keeps.
Qed.

(** The statement above at a completed task holding a [std::unique_ptr<int>],
    cancelled, read, resumed and read again. *)
Lemma completion_is_final_witness :
  let m := Driver.exec [Driver.Resume]
             (Driver.start (constructed 1 (Return (UniqueInt (Some 5)))) []) in
  let m' := Caller.exec [Caller.Member Driver.Cancel; Caller.GetResult;
                         Caller.Member Driver.Resume; Caller.GetResult] m in
  TaskImpl.is_complete (Driver.task m') = true /\
  Driver.trace m' = Driver.trace m /\
  ResultHolderImpl.holds_value (TaskImpl.result_ (Driver.task m')) = true.
Proof.
  intros m m'.
  destruct (@completion_is_final unique_int _ m
              [Caller.Member Driver.Cancel; Caller.GetResult;
               Caller.Member Driver.Resume; Caller.GetResult] eq_refl)
    as (A & B & _ & C & _).
  split; [exact A | split; [exact B | exact (eq_trans C eq_refl)]].
Defined.

(** X8. Under any sequence of member calls the result slot of a task holds
    something exactly when the task is complete, never a value and a failure
    together, and the callable has left its [try] block at most once. *)
Theorem slot_tracks_completion (T : Type) `{CppType T}
    (count : Z) (callable : code T) (s0 : TaskImpl.t T) (count' : Z)
    (evs0 : list (event T)) (ops : list Driver.op) :
  TaskImpl.create count callable = Value (s0, count', evs0) ->
  let m := Driver.exec ops (Driver.start s0 evs0) in
  let slot := TaskImpl.result_ (Driver.task m) in
  TaskImpl.is_complete (Driver.task m)
  = (ResultHolderImpl.holds_value slot || ResultHolderImpl.holds_failure slot)%bool /\
  (ResultHolderImpl.holds_value slot && ResultHolderImpl.holds_failure slot)%bool = false /\
  (List.length (exits (Driver.trace m)) <= 1)%nat.
Proof.
  intros Hc m slot. apply create_inv in Hc. destruct Hc as (-> & _ & ->).
  pose proof (exec_lifecycle ops (constructed_lifecycle (count + 1) callable)) as L.
  fold m in L. subst slot.
  destruct L as [Hn Hr Hx | v Hk Hr Hx | e Hk Hs Hr Hx | e Hn Hh Hs Hr Hx];
    rewrite Hr, Hx.
  - rewrite Hn. repeat split. cbn. lia.
  - unfold TaskImpl.is_complete. rewrite Hk.
    destruct (holds_after_store v) as (-> & ->). repeat split. cbn. lia.
  - unfold TaskImpl.is_complete. rewrite Hk. repeat split. cbn. lia.
  - rewrite Hn. repeat split. cbn. lia.
Qed.

(** The statement above at a task cancelled while suspended. *)
Lemma slot_tracks_completion_witness :
  let m := Driver.exec [Driver.Resume; Driver.Cancel; Driver.Resume]
             (Driver.start (constructed 1 Samples.yield_once) []) in
  let slot := TaskImpl.result_ (Driver.task m) in
  TaskImpl.is_complete (Driver.task m)
  = (ResultHolderImpl.holds_value slot || ResultHolderImpl.holds_failure slot)%bool /\
  (ResultHolderImpl.holds_value slot && ResultHolderImpl.holds_failure slot)%bool = false /\
  (List.length (exits (Driver.trace m)) <= 1)%nat.
Proof.
  exact (@slot_tracks_completion Z _ 0 Samples.yield_once
           (constructed 1 Samples.yield_once) 1 []
           [Driver.Resume; Driver.Cancel; Driver.Resume] eq_refl).
Defined.

(** X9. A task whose callable goes through at most [d] calls of [suspend()]
    on any path, handlers included, is complete once it has been resumed
    more than [d] times, whatever else was called in between, unless the
    program has stopped. *)
Theorem completes_within_depth (T : Type) `{CppType T}
    (count : Z) (callable : code T) (s0 : TaskImpl.t T) (count' : Z)
    (evs0 : list (event T)) (ops : list Driver.op) :
  TaskImpl.create count callable = Value (s0, count', evs0) ->
  (depth callable < resumes ops)%nat ->
  let m := Driver.exec ops (Driver.start s0 evs0) in
  Driver.halted m <> None \/ TaskImpl.is_complete (Driver.task m) = true.
Proof.
  intros Hc Hd m. apply create_inv in Hc. destruct Hc as (-> & _ & ->).
  apply exec_runs_out_of_fuel. cbn. lia.
Qed.

(** The statement above at a callable that catches [Cancelled] and yields
    again: two suspensions at most, three resumes. *)
Lemma completes_within_depth_witness :
  let m := Driver.exec [Driver.Resume; Driver.Cancel; Driver.Resume; Driver.Resume]
             (Driver.start (constructed 1 Samples.cleanup_on_cancel) []) in
  Driver.halted m <> None \/ TaskImpl.is_complete (Driver.task m) = true.
Proof.
  refine (@completes_within_depth Z _ 0 Samples.cleanup_on_cancel
            (constructed 1 Samples.cleanup_on_cancel) 1 []
            [Driver.Resume; Driver.Cancel; Driver.Resume; Driver.Resume] eq_refl _).
  cbn. lia.
Defined.

(* ===================================================================== *)
(** ** Further properties: yielding, and cancelling around the first run  *)
(* ===================================================================== *)

Section PlainRunFacts.
Context {T : Type} `{CppType T}.

Lemma exec_app (ops1 ops2 : list Driver.op) (m : Driver.machine T) :
  Driver.exec (ops1 ++ ops2) m = Driver.exec ops2 (Driver.exec ops1 m).
Proof. unfold Driver.exec. apply fold_left_app. Qed.

Lemma top_frame_events (e : exception) (s : TaskImpl.t T) :
  snd (TaskImpl.top_frame e s) = [CallableThrew e].
Proof.
  unfold TaskImpl.top_frame. destruct (is_std_exception e); [| reflexivity].
  destruct (ResultHolder.store_exception e (TaskImpl.result_ s)); reflexivity.
Qed.

(** With no cancellation pending at any [suspend()], resuming the coroutine
    once per suspension plays the callable as a plain function. *)
Lemma resumes_play_plain (c : code T) :
  forall (s : TaskImpl.t T) (pre : list (event T)),
    TaskImpl.yield_ s = true ->
    TaskImpl.pending_cancel_ s = false ->
    Driver.trace
      (Driver.exec (repeat Driver.Resume (yields c))
         {| Driver.task := snd (fst (TaskImpl.run c s));
            Driver.trace := pre ++ snd (TaskImpl.run c s);
            Driver.halted := match fst (fst (TaskImpl.run c s)) with
                             | Halted f => Some f
                             | _ => None
                             end |})
    = pre ++ plain_trace c.
Proof.
  induction c as [v | e | n k IH | k IHk h IHh]; intros s pre Hy Hp.
  - reflexivity.
  - cbn [TaskImpl.run yields repeat Driver.exec fold_left Driver.trace].
    rewrite top_frame_events. reflexivity.
  - cbn [TaskImpl.run yields]. rewrite emit_fst, emit_snd.
    specialize (IH s (pre ++ [UserAction n]) Hy Hp).
    rewrite <- !app_assoc in IH. cbn [app] in IH.
    unfold plain_trace. cbn [actions map exit_event app]. exact IH.
  - cbn [TaskImpl.run yields repeat]. rewrite Hy. cbn [fst snd].
    rewrite exec_cons.
    set (s1 := TaskImpl.with_coroutine (InSuspend k h) s).
    assert (St : Driver.step
                   {| Driver.task := s1; Driver.trace := pre ++ [];
                      Driver.halted := None |} Driver.Resume
                 = {| Driver.task := snd (fst (TaskImpl.run k s1));
                      Driver.trace := pre ++ snd (TaskImpl.run k s1);
                      Driver.halted := match fst (fst (TaskImpl.run k s1)) with
                                       | Halted f => Some f
                                       | _ => None
                                       end |}).
    { unfold Driver.step. cbn [Driver.halted Driver.task Driver.trace].
      unfold TaskImpl.resume, TaskImpl.call.
      replace (TaskImpl.coroutine_ s1) with (InSuspend k h) by reflexivity.
      replace (TaskImpl.pending_cancel_ s1) with false by (symmetry; exact Hp).
      rewrite app_nil_r.
      destruct (TaskImpl.run k s1) as [[tr s2] evs2]. reflexivity. }
    rewrite St. unfold plain_trace. cbn [actions exit_event].
    apply (IHk s1 pre); [exact Hy | exact Hp].
Qed.

Lemma exit_event_is_exit (c : code T) : is_exit (exit_event c) = true.
Proof. induction c; cbn; auto. Qed.

Lemma exits_plain_trace (c : code T) : exits (plain_trace c) = [exit_event c].
Proof.
  unfold plain_trace. rewrite exits_app.
  assert (E : exits (map (fun n => @UserAction T n) (actions c)) = []).
  { induction (actions c) as [| a l IH]; [reflexivity | exact IH]. }
  rewrite E. cbn. unfold exits. cbn. rewrite exit_event_is_exit. reflexivity.
Qed.

Lemma deliveries_plain_trace (c : code T) : Driver.deliveries (plain_trace c) = 0%nat.
Proof.
  unfold plain_trace. rewrite deliveries_app.
  assert (E : Driver.deliveries (map (fun n => @UserAction T n) (actions c)) = 0%nat).
  { induction (actions c) as [| a l IH]; [reflexivity | exact IH]. }
  rewrite E. unfold Driver.deliveries. cbn.
  induction c; cbn; auto.
Qed.

Lemma top_frame_pending (b : bool) (e : exception) (s : TaskImpl.t T) :
  TaskImpl.top_frame e (TaskImpl.with_pending_cancel b s)
  = (fst (fst (TaskImpl.top_frame e s)),
     TaskImpl.with_pending_cancel b (snd (fst (TaskImpl.top_frame e s))),
     snd (TaskImpl.top_frame e s)).
Proof.
  unfold TaskImpl.top_frame. cbn [TaskImpl.with_pending_cancel TaskImpl.result_].
  destruct (is_std_exception e); [| reflexivity].
  destruct (ResultHolder.store_exception e (TaskImpl.result_ s)); reflexivity.
Qed.

(** Running user code does not read [pending_cancel_]. *)
Lemma run_pending (b : bool) (c : code T) (s : TaskImpl.t T) :
  TaskImpl.run c (TaskImpl.with_pending_cancel b s)
  = (fst (fst (TaskImpl.run c s)),
     TaskImpl.with_pending_cancel b (snd (fst (TaskImpl.run c s))),
     snd (TaskImpl.run c s)).
Proof.
  induction c as [v | e | n k IH | k IHk h IHh]; cbn [TaskImpl.run].
  - reflexivity.
  - apply top_frame_pending.
  - rewrite IH. rewrite emit_fst, emit_snd. reflexivity.
  - cbn [TaskImpl.with_pending_cancel TaskImpl.yield_].
    destruct (TaskImpl.yield_ s); reflexivity.
Qed.

Lemma repeat_cancel (k : nat) (m : Driver.machine T) :
  Driver.halted m = None ->
  Driver.exec (repeat Driver.Cancel (S k)) m = Driver.step m Driver.Cancel.
Proof.
  intros Hm. induction k as [| k IH].
  - reflexivity.
  - change (repeat Driver.Cancel (S (S k)))
      with (Driver.Cancel :: repeat Driver.Cancel (S k)).
    rewrite exec_cons.
    assert (E : Driver.exec (repeat Driver.Cancel (S k)) (Driver.step m Driver.Cancel)
                = Driver.step (Driver.step m Driver.Cancel) Driver.Cancel).
    { clear IH. revert m Hm. induction k as [| k IHk]; intros m Hm; [reflexivity |].
      change (repeat Driver.Cancel (S (S k)))
        with (Driver.Cancel :: repeat Driver.Cancel (S k)).
      rewrite exec_cons. rewrite IHk.
      - unfold Driver.step. rewrite Hm. reflexivity.
      - unfold Driver.step. rewrite Hm. reflexivity. }
    rewrite E. unfold Driver.step. rewrite Hm. reflexivity.
Qed.

(** A callable that never suspends runs to its exit in one stretch. *)
Lemma run_suspend_free (c : code T) (s : TaskImpl.t T) :
  suspend_free c = true ->
  snd (TaskImpl.run c s) = plain_trace c /\
  (TaskImpl.coroutine_ (snd (fst (TaskImpl.run c s))) = Complete \/
   exists f, fst (fst (TaskImpl.run c s)) = Halted f).
Proof.
  induction c as [v | e | n k IH | k IHk h IHh]; cbn [suspend_free TaskImpl.run];
    intros Hs; try discriminate.
  - split; [reflexivity | left; reflexivity].
  - split; [apply top_frame_events |].
    unfold TaskImpl.top_frame.
    destruct (is_std_exception e); [| right; eexists; reflexivity].
    destruct (ResultHolder.store_exception e (TaskImpl.result_ s));
      [left; reflexivity | right; eexists; reflexivity | right; eexists; reflexivity].
  - rewrite emit_fst, emit_snd. destruct (IH Hs) as (A & B).
    split; [rewrite A; reflexivity | exact B].
Qed.

End PlainRunFacts.

(** X10. Yielding is transparent. When nobody cancels, resuming a task once
    more than its callable suspends on the normal path makes the callable's
    actions happen in program order, followed by its exit, as if the
    callable had been called as a plain function; [get_result] then returns
    the value it returned, or throws the [std::exception] it threw. *)
Theorem yielding_is_transparent (T : Type) `{CppType T}
    (count : Z) (callable : code T) (s0 : TaskImpl.t T) (count' : Z)
    (evs0 : list (event T)) :
  TaskImpl.create count callable = Value (s0, count', evs0) ->
  let m := Driver.exec (repeat Driver.Resume (S (yields callable)))
             (Driver.start s0 evs0) in
  Driver.trace m = plain_trace callable /\
  (forall v, exit_event callable = CallableReturned v ->
             fst (TaskImpl.get_result (Driver.task m)) = Value v) /\
  (forall e, exit_event callable = CallableThrew e ->
             is_std_exception e = true ->
             fst (TaskImpl.get_result (Driver.task m)) = Throws e).
Proof.
  intros Hc m. apply create_inv in Hc. destruct Hc as (-> & _ & ->).
  set (s0 := constructed (count + 1) callable) in *.
  assert (Tr : Driver.trace m = plain_trace callable).
  { subst m. change (repeat Driver.Resume (S (yields callable)))
      with (Driver.Resume :: repeat Driver.Resume (yields callable)).
    rewrite exec_cons.
    assert (St : Driver.step (Driver.start s0 []) Driver.Resume
                 = {| Driver.task := snd (fst (TaskImpl.run callable s0));
                      Driver.trace := [] ++ snd (TaskImpl.run callable s0);
                      Driver.halted := match fst (fst (TaskImpl.run callable s0)) with
                                       | Halted f => Some f
                                       | _ => None
                                       end |}).
    { unfold Driver.step, Driver.start. cbn [Driver.halted Driver.task Driver.trace].
      unfold TaskImpl.resume, TaskImpl.call.
      replace (TaskImpl.coroutine_ s0) with (EntryBarrier callable) by reflexivity.
      destruct (TaskImpl.run callable s0) as [[tr s2] evs2]. reflexivity. }
    rewrite St. apply (resumes_play_plain callable s0 []); reflexivity. }
  split; [exact Tr |].
  pose proof (exec_lifecycle (repeat Driver.Resume (S (yields callable)))
                (constructed_lifecycle (count + 1) callable)) as L.
  fold s0 in L. fold m in L.
  assert (Ex : exits (Driver.trace m) = [exit_event callable])
    by (rewrite Tr; apply exits_plain_trace).
  split.
  - intros v Ev. rewrite Ev in Ex.
    destruct L as [Hn Hr Hx | v' Hk Hr Hx | e' Hk Hs Hr Hx | e' Hn Hh Hs Hr Hx];
      rewrite Hx in Ex; try discriminate.
    inversion Ex; subst v'.
    unfold TaskImpl.get_result. rewrite Hr.
    pose proof (@get_after_first_store T _ ResultHolder.buffer_size_ ResultHolder.align_
                  v ResultHolder.empty eq_refl eq_refl) as G.
    cbv zeta in G. destruct G as (G1 & _).
    unfold ResultHolder.get, ResultHolder.store.
    destruct (ResultHolderImpl.get
                (ResultHolderImpl.store ResultHolder.buffer_size_ v ResultHolder.empty))
      as [r1 h1]. exact G1.
  - intros e Ev Hstd. rewrite Ev in Ex.
    destruct L as [Hn Hr Hx | v' Hk Hr Hx | e' Hk Hs Hr Hx | e' Hn Hh Hs Hr Hx];
      rewrite Hx in Ex; try discriminate.
    + inversion Ex; subst e'.
      unfold TaskImpl.get_result. rewrite Hr, get_failure_slot. reflexivity.
    + inversion Ex; subst e'. congruence.
Qed.

(** The statement above at a callable that acts, yields, acts and returns. *)
Lemma yielding_is_transparent_witness :
  let m := Driver.exec [Driver.Resume; Driver.Resume]
             (Driver.start (constructed 1 Samples.yield_once) []) in
  Driver.trace m = [UserAction 1; UserAction 2; CallableReturned 7] /\
  fst (TaskImpl.get_result (Driver.task m)) = Value 7.
Proof.
  destruct (@yielding_is_transparent Z _ 0 Samples.yield_once
              (constructed 1 Samples.yield_once) 1 [] eq_refl) as (A & B & _).
  split; [exact A | exact (B 7 eq_refl)].
Defined.

(** X11. [cancel()] before the first run is neither lost nor delivered
    early. Calling it any positive number of times on a constructed task and
    then resuming leaves the same task and trace as resuming first and
    cancelling once afterwards: the callable has run its first stretch,
    nothing was thrown into it, and the request is still pending. *)
Theorem cancel_before_first_run (T : Type) `{CppType T}
    (count : Z) (callable : code T) (s0 : TaskImpl.t T) (count' : Z)
    (evs0 : list (event T)) (k : nat) :
  TaskImpl.create count callable = Value (s0, count', evs0) ->
  Driver.halted (Driver.step (Driver.start s0 evs0) Driver.Resume) = None ->
  let early := Driver.exec (repeat Driver.Cancel (S k) ++ [Driver.Resume])
                 (Driver.start s0 evs0) in
  early = Driver.exec [Driver.Resume; Driver.Cancel] (Driver.start s0 evs0) /\
  Driver.deliveries (Driver.trace early) = 0%nat /\
  TaskImpl.pending_cancel_ (Driver.task early) = true.
Proof.
  intros Hc Hrun early. apply create_inv in Hc. destruct Hc as (-> & _ & ->).
  set (s0 := constructed (count + 1) callable) in *.
  assert (E : early
              = {| Driver.task :=
                     TaskImpl.with_pending_cancel true (snd (fst (TaskImpl.run callable s0)));
                   Driver.trace := [] ++ snd (TaskImpl.run callable s0);
                   Driver.halted := None |}).
  { subst early. rewrite exec_app, repeat_cancel by reflexivity.
    unfold Driver.step in Hrun. cbn [Driver.start Driver.halted Driver.task] in Hrun.
    unfold TaskImpl.resume, TaskImpl.call in Hrun.
    replace (TaskImpl.coroutine_ s0) with (EntryBarrier callable) in Hrun by reflexivity.
    cbn [Driver.exec fold_left]. unfold Driver.step at 2.
    cbn [Driver.start Driver.halted Driver.task Driver.trace].
    unfold Driver.step. cbn [Driver.halted Driver.task Driver.trace].
    unfold TaskImpl.resume, TaskImpl.call, TaskImpl.cancel.
    replace (TaskImpl.coroutine_ (TaskImpl.with_pending_cancel true s0))
      with (EntryBarrier callable) by reflexivity.
    rewrite run_pending.
    destruct (TaskImpl.run callable s0) as [[tr s1] evs1].
    cbn [fst snd Driver.halted] in *. rewrite Hrun. reflexivity. }
  split; [| split].
  - rewrite E. cbn [Driver.exec fold_left].
    unfold Driver.step at 2. cbn [Driver.start Driver.halted Driver.task Driver.trace].
    unfold TaskImpl.resume, TaskImpl.call.
    replace (TaskImpl.coroutine_ s0) with (EntryBarrier callable) by reflexivity.
    unfold Driver.step in Hrun. cbn [Driver.start Driver.halted Driver.task] in Hrun.
    unfold TaskImpl.resume, TaskImpl.call in Hrun.
    replace (TaskImpl.coroutine_ s0) with (EntryBarrier callable) in Hrun by reflexivity.
    destruct (TaskImpl.run callable s0) as [[tr s1] evs1].
    cbn [fst snd Driver.halted] in *.
    unfold Driver.step. cbn [Driver.halted]. rewrite Hrun. reflexivity.
  - rewrite E. cbn [Driver.trace app].
    exact (proj2 (run_bookkeeping callable s0)).
  - rewrite E. reflexivity.
Qed.

(** The statement above at a task cancelled twice before it first runs. *)
Lemma cancel_before_first_run_witness :
  let early := Driver.exec [Driver.Cancel; Driver.Cancel; Driver.Resume]
                 (Driver.start (constructed 1 Samples.yield_once) []) in
  early = Driver.exec [Driver.Resume; Driver.Cancel]
            (Driver.start (constructed 1 Samples.yield_once) []) /\
  Driver.deliveries (Driver.trace early) = 0%nat /\
  TaskImpl.pending_cancel_ (Driver.task early) = true.
Proof.
  exact (@cancel_before_first_run Z _ 0 Samples.yield_once
           (constructed 1 Samples.yield_once) 1 [] 1%nat eq_refl eq_refl).
Defined.

(** X12. A callable that never reaches [suspend()] cannot be cancelled:
    whatever is called on its task, and in whatever order, nothing is ever
    thrown into it, and what it did is either nothing yet or all of it up
    to its own exit. *)
Theorem suspend_free_ignores_cancel (T : Type) `{CppType T}
    (count : Z) (callable : code T) (s0 : TaskImpl.t T) (count' : Z)
    (evs0 : list (event T)) (ops : list Driver.op) :
  TaskImpl.create count callable = Value (s0, count', evs0) ->
  suspend_free callable = true ->
  let m := Driver.exec ops (Driver.start s0 evs0) in
  (Driver.trace m = [] \/ Driver.trace m = plain_trace callable) /\
  Driver.deliveries (Driver.trace m) = 0%nat.
Proof.
  intros Hc Hfree m. apply create_inv in Hc. destruct Hc as (-> & _ & ->).
  assert (Step : forall (m1 : Driver.machine T) (o : Driver.op),
             (TaskImpl.coroutine_ (Driver.task m1) = EntryBarrier callable /\
              Driver.trace m1 = []) \/
             (Driver.trace m1 = plain_trace callable /\
              (TaskImpl.coroutine_ (Driver.task m1) = Complete \/
               Driver.halted m1 <> None)) ->
             (TaskImpl.coroutine_ (Driver.task (Driver.step m1 o))
              = EntryBarrier callable /\
              Driver.trace (Driver.step m1 o) = []) \/
             (Driver.trace (Driver.step m1 o) = plain_trace callable /\
              (TaskImpl.coroutine_ (Driver.task (Driver.step m1 o)) = Complete \/
               Driver.halted (Driver.step m1 o) <> None))).
  { intros m1 o I. unfold Driver.step.
    destruct (Driver.halted m1) as [f |] eqn:Hm; [rewrite <- Hm in I; exact I |].
    assert (I' : (TaskImpl.coroutine_ (Driver.task m1) = EntryBarrier callable /\
                  Driver.trace m1 = []) \/
                 (Driver.trace m1 = plain_trace callable /\
                  TaskImpl.coroutine_ (Driver.task m1) = Complete)).
    { destruct I as [I | (Et & [Ec | Hh])]; [left; exact I | right; split; assumption |].
      congruence. }
    clear I.
    assert (Same : forall m2 : Driver.machine T,
               TaskImpl.coroutine_ (Driver.task m2)
               = TaskImpl.coroutine_ (Driver.task m1) ->
               Driver.trace m2 = Driver.trace m1 ->
               (TaskImpl.coroutine_ (Driver.task m2) = EntryBarrier callable /\
                Driver.trace m2 = []) \/
               (Driver.trace m2 = plain_trace callable /\
                (TaskImpl.coroutine_ (Driver.task m2) = Complete \/
                 Driver.halted m2 <> None))).
    { intros m2 Ec2 Et2. rewrite Ec2, Et2.
      destruct I' as [I' | (Et & Ec)]; [left; exact I' | right; split; [exact Et |]].
      left. exact Ec. }
    destruct o as [ | | | | val]; try (apply Same; reflexivity).
    - unfold TaskImpl.resume.
      destruct I' as [(Ec & Et) | (Et & Ec)].
      + unfold TaskImpl.call. rewrite Ec.
        destruct (run_suspend_free callable (Driver.task m1) Hfree) as (A & B).
        destruct (TaskImpl.run callable (Driver.task m1)) as [[tr s1] evs1].
        cbn [fst snd] in A, B. cbn [Driver.task Driver.trace Driver.halted].
        right. rewrite Et, A. split; [reflexivity |].
        destruct B as [B | (f & ->)]; [left; exact B | right; discriminate].
      + rewrite (call_complete _ Ec). cbn [Driver.task Driver.trace Driver.halted].
        right. rewrite app_nil_r. split; [exact Et | left; exact Ec].
    - unfold TaskImpl.decr_wait_count, ELL_ASSERT.
      destruct (0 <? TaskImpl.wait_count_ (Driver.task m1)); apply Same; reflexivity. }
  assert (Inv : forall (l : list Driver.op) (m1 : Driver.machine T),
             (TaskImpl.coroutine_ (Driver.task m1) = EntryBarrier callable /\
              Driver.trace m1 = []) \/
             (Driver.trace m1 = plain_trace callable /\
              (TaskImpl.coroutine_ (Driver.task m1) = Complete \/
               Driver.halted m1 <> None)) ->
             Driver.trace (Driver.exec l m1) = [] \/
             Driver.trace (Driver.exec l m1) = plain_trace callable).
  { induction l as [| o l IH]; intros m1 I.
    - destruct I as [(_ & Et) | (Et & _)]; [left | right]; exact Et.
    - rewrite exec_cons. apply IH. apply Step. exact I. }
  assert (Tr : Driver.trace m = [] \/ Driver.trace m = plain_trace callable).
  { apply Inv. left. split; reflexivity. }
  split; [exact Tr |].
  destruct Tr as [-> | ->]; [reflexivity | apply deliveries_plain_trace].
Qed.

(** The statement above at a callable that only returns, cancelled before
    and after its run. *)
Lemma suspend_free_ignores_cancel_witness :
  let m := Driver.exec [Driver.Cancel; Driver.Resume; Driver.Cancel]
             (Driver.start (constructed 1 (Emit 5 (Return 3))) []) in
  (Driver.trace m = [] \/ Driver.trace m = [UserAction 5; CallableReturned 3]) /\
  Driver.deliveries (Driver.trace m) = 0%nat.
Proof.
  exact (@suspend_free_ignores_cancel Z _ 0 (Emit 5 (Return 3))
           (constructed 1 (Emit 5 (Return 3))) 1 []
           [Driver.Cancel; Driver.Resume; Driver.Cancel] eq_refl eq_refl).
Defined.

(* ===================================================================== *)
(** ** Further properties: the result holder on its own                   *)
(* ===================================================================== *)

Section HolderFacts.
Context {T : Type} `{CppType T}.

Lemma store_keeps_eptr (v : T) (h : ResultHolder.t T) :
  ResultHolderImpl.eptr_ (ResultHolder.store v h) = ResultHolderImpl.eptr_ h.
Proof.
  unfold ResultHolder.store, ResultHolderImpl.store.
  destruct (ResultHolderImpl.fits_inline ResultHolder.buffer_size_); reflexivity.
Qed.

Lemma stores_keep_eptr (vs : list T) (h : ResultHolder.t T) :
  ResultHolderImpl.eptr_ (Process.stores vs h) = ResultHolderImpl.eptr_ h.
Proof.
  revert h. induction vs as [| v vs IH]; intros h; [reflexivity |].
  unfold Process.stores in *. cbn [fold_left]. rewrite IH. apply store_keeps_eptr.
Qed.

Lemma get_next (h : ResultHolder.t T) (v : T) :
  fst (ResultHolder.get h) = Value v ->
  fst (ResultHolder.get (snd (ResultHolder.get h))) = Value (moved_from v) /\
  ResultHolderImpl.holds_value h = true /\
  ResultHolderImpl.holds_failure h = false.
Proof.
  unfold ResultHolder.get, ResultHolderImpl.get,
    ResultHolderImpl.holds_value, ResultHolderImpl.holds_failure.
  destruct (ResultHolderImpl.eptr_ h) as [e |] eqn:Ee; [cbn; discriminate |].
  destruct (ResultHolderImpl.obj_ h) as [ | | w] eqn:Eo; [cbn; discriminate | |].
  - destruct (ResultHolderImpl.storage_ h) as [ | w | ]; cbn; try discriminate.
    intros E. inversion E; subst. repeat split.
  - cbn. intros E. inversion E; subst. repeat split.
Qed.

End HolderFacts.

(** X13. The first failure stored in a [ResultHolder] sticks: whatever
    values are stored afterwards, [get] throws that failure and leaves the
    holder as it is, and a second [store_exception] fails the assertion. *)
Theorem first_failure_sticks (T : Type) `{CppType T}
    (h : ResultHolder.t T) (e : exception) :
  ResultHolderImpl.eptr_ h = None ->
  exists h1 : ResultHolder.t T,
    ResultHolder.store_exception e h = Value h1 /\
    forall (vs : list T) (e2 : exception),
      ResultHolder.get (Process.stores vs h1) = (Throws e, Process.stores vs h1) /\
      ResultHolder.store_exception e2 (Process.stores vs h1)
      = Fault (AssertionFailed "eptr_ == nullptr").
Proof.
  intros He. eexists. split.
  - unfold ResultHolder.store_exception, ResultHolderImpl.store_exception, c_assert.
    rewrite He. reflexivity.
  - intros vs e2.
    match goal with
    | |- ResultHolder.get (Process.stores vs ?h1) = _ /\ _ =>
        pose proof (stores_keep_eptr vs h1) as K
    end.
    cbn [ResultHolderImpl.eptr_] in K. split.
    + unfold ResultHolder.get, ResultHolderImpl.get. rewrite K. reflexivity.
    + unfold ResultHolder.store_exception, ResultHolderImpl.store_exception, c_assert.
      rewrite K. reflexivity.
Qed.

(** The statement above at an empty holder of [int], two values stored after
    the failure. *)
Lemma first_failure_sticks_witness :
  exists h1 : ResultHolder.t Z,
    ResultHolder.store_exception Cancelled ResultHolder.empty = Value h1 /\
    fst (ResultHolder.get (Process.stores [1; 2] h1)) = Throws Cancelled.
Proof.
  destruct (@first_failure_sticks Z _ ResultHolder.empty Cancelled eq_refl)
    as (h1 & A & B).
  exists h1. split; [exact A |].
  rewrite (proj1 (B [1; 2] Cancelled)). reflexivity.
Defined.

(** X14. A second [store] on a holder that holds a first value. When the
    type lives on the heap, or in the buffer with a trivial destructor, the
    holder ends up exactly as if only the second value had been stored, and
    [get] yields it. When the type lives in the buffer and its destructor is
    not trivial, the deleter of the first object destroys the second, and
    [get] reads a dead object. *)
Theorem second_store_general (T : Type) `{CppType T} (v1 v2 : T) :
  let h2 := ResultHolder.store v2 (ResultHolder.store v1 ResultHolder.empty) in
  let dies := (ResultHolderImpl.fits_inline ResultHolder.buffer_size_ (T := T)
               && negb (trivially_destructible T))%bool in
  (dies = false ->
   h2 = ResultHolder.store v2 ResultHolder.empty /\
   fst (ResultHolder.get h2) = Value v2) /\
  (dies = true ->
   ResultHolderImpl.storage_ h2 = ResultHolderImpl.Destroyed /\
   fst (ResultHolder.get h2)
   = Fault (Undefined "read of an object that is not alive")).
Proof.
  cbv zeta. unfold ResultHolder.store, ResultHolderImpl.store, ResultHolder.get,
    ResultHolderImpl.get.
  destruct (ResultHolderImpl.fits_inline ResultHolder.buffer_size_ (T := T));
    destruct (trivially_destructible T) eqn:Et; cbn; rewrite ?Et;
    split; intros E; try discriminate; split; reflexivity.
Qed.

(** The statement above at [int] (overwritten) and at [std::unique_ptr<int>]
    (destroyed). *)
Lemma second_store_general_witness :
  fst (ResultHolder.get (ResultHolder.store 2 (ResultHolder.store 1 ResultHolder.empty)))
  = Value 2 /\
  fst (ResultHolder.get
         (ResultHolder.store (UniqueInt (Some 2))
            (ResultHolder.store (UniqueInt (Some 1)) ResultHolder.empty)))
  = Fault (Undefined "read of an object that is not alive").
Proof.
  split.
  - exact (proj2 (proj1 (@second_store_general Z _ 1 2) eq_refl)).
  - exact (proj2 (proj2 (@second_store_general unique_int _
                           (UniqueInt (Some 1)) (UniqueInt (Some 2))) eq_refl)).
Defined.

(** X15. [get] can be repeated: once it has returned a value, every later
    [get] returns a value too, the object as the moves so far have left it,
    and the holder never becomes empty nor acquires a failure. *)
Theorem get_is_repeatable (T : Type) `{CppType T}
    (h : ResultHolder.t T) (v : T) (n : nat) :
  fst (ResultHolder.get h) = Value v ->
  fst (ResultHolder.get (Process.gets n h)) = Value (Process.moved_from_n n v) /\
  ResultHolderImpl.holds_value (Process.gets n h) = true /\
  ResultHolderImpl.holds_failure (Process.gets n h) = false.
Proof.
  intros Hv.
  assert (G : fst (ResultHolder.get (Process.gets n h))
              = Value (Process.moved_from_n n v)).
  { induction n as [| n IH]; [exact Hv |].
    cbn [Process.gets Process.moved_from_n].
    exact (proj1 (get_next _ IH)). }
  split; [exact G |]. exact (proj2 (get_next _ G)).
Qed.

(** The statement above at a [std::unique_ptr<int>]: the first [get] takes
    the pointer, the fourth finds a null one. *)
Lemma get_is_repeatable_witness :
  fst (ResultHolder.get
         (Process.gets 3 (ResultHolder.store (UniqueInt (Some 5)) ResultHolder.empty)))
  = Value (UniqueInt None).
Proof.
  exact (proj1 (@get_is_repeatable unique_int _
                  (ResultHolder.store (UniqueInt (Some 5)) ResultHolder.empty)
                  (UniqueInt (Some 5)) 3 eq_refl)).
Defined.

(* ===================================================================== *)
(** ** Further properties: the current loop                               *)
(* ===================================================================== *)

(** X16. The current loop is a single cell, not a stack: after any calls of
    [set_current_event_loop], the last one that sets decides alone what
    [get_current_event_loop] returns, calls that only read change nothing,
    and [yield()], [yield(callable)] and [sleep(duration)] all go to that
    loop, or through a null pointer when the last one set null. *)
Theorem last_install_wins (D : Type)
    (calls : list (Ell.EventLoop_ptr * bool)) (cl p : Ell.EventLoop_ptr) :
  let after := Process.set_calls (calls ++ [(p, true)]) cl in
  fst (Ell.get_current_event_loop after) = p /\
  (forall reads : list (Ell.EventLoop_ptr * bool),
      Forall (fun c => snd c = false) reads -> Process.set_calls reads after = after) /\
  match p with
  | Some a =>
      Ell.yield (D := D) after = Value (a, Ell.suspend_current_task) /\
      Ell.yield_to (D := D) after = Value (a, Ell.yield_callable) /\
      forall d : D, Ell.sleep d after = Value (a, Ell.sleep_current_task d)
  | None =>
      Ell.yield (D := D) after
      = Fault (Undefined "member call through a null EventLoop pointer") /\
      Ell.yield_to (D := D) after
      = Fault (Undefined "member call through a null EventLoop pointer") /\
      forall d : D,
        Ell.sleep d after
        = Fault (Undefined "member call through a null EventLoop pointer")
  end.
Proof.
  intros after.
  assert (E : after = p).
  { subst after. unfold Process.set_calls. rewrite fold_left_app. reflexivity. }
  rewrite E. split; [reflexivity | split].
  - intros reads Hr. induction Hr as [| [q b] reads Hb _ IH]; [reflexivity |].
    cbn in Hb. subst b. exact IH.
  - destruct p as [a |]; repeat split.
Qed.

(** The statement above: a loop at 4096 installs itself, a loop at 8192
    installs itself over it and uninstalls; the first loop is not current
    again, and [yield(callable)] goes through null. *)
Lemma last_install_wins_witness :
  let after := Process.set_calls [(Some 4096, true); (Some 8192, true); (None, true)]
                 Ell.current_loop_initial in
  fst (Ell.get_current_event_loop after) = None /\
  Ell.yield_to (D := Z) after
  = Fault (Undefined "member call through a null EventLoop pointer").
Proof.
  destruct (@last_install_wins Z [(Some 4096, true); (Some 8192, true)]
              Ell.current_loop_initial None) as (A & _ & _ & B & _).
  split; [exact A | exact B].
Defined.

(* ===================================================================== *)
(** ** Further properties: what resume() does not look at                 *)
(* ===================================================================== *)

Section BlindFacts.
Context {T : Type} `{CppType T}.

Lemma top_frame_blind (n : Z) (b : bool) (e : exception) (s : TaskImpl.t T) :
  TaskImpl.top_frame e (TaskImpl.set_active b (TaskImpl.with_wait_count n s))
  = (fst (fst (TaskImpl.top_frame e s)),
     TaskImpl.set_active b (TaskImpl.with_wait_count n (snd (fst (TaskImpl.top_frame e s)))),
     snd (TaskImpl.top_frame e s)).
Proof.
  unfold TaskImpl.top_frame.
  cbn [TaskImpl.set_active TaskImpl.with_wait_count TaskImpl.result_].
  destruct (is_std_exception e); [| reflexivity].
  destruct (ResultHolder.store_exception e (TaskImpl.result_ s)); reflexivity.
Qed.

Lemma run_blind (n : Z) (b : bool) (c : code T) (s : TaskImpl.t T) :
  TaskImpl.run c (TaskImpl.set_active b (TaskImpl.with_wait_count n s))
  = (fst (fst (TaskImpl.run c s)),
     TaskImpl.set_active b (TaskImpl.with_wait_count n (snd (fst (TaskImpl.run c s)))),
     snd (TaskImpl.run c s)).
Proof.
  induction c as [v | e | n' k IH | k IHk h IHh]; cbn [TaskImpl.run].
  - reflexivity.
  - apply top_frame_blind.
  - rewrite IH. rewrite emit_fst, emit_snd. reflexivity.
  - cbn [TaskImpl.set_active TaskImpl.with_wait_count TaskImpl.yield_].
    destruct (TaskImpl.yield_ s); reflexivity.
Qed.

End BlindFacts.

(** X18. [resume()] checks neither the wait count nor the activity cache:
    with any other wait count and any other cache value the coroutine hands
    back the same way with the same events, and the task differs only by
    those two members. A task that still waits for wakes runs all the same
    when resumed. *)
Theorem resume_ignores_wait_count (T : Type) `{CppType T}
    (s : TaskImpl.t T) (n : Z) (b : bool) :
  TaskImpl.resume (TaskImpl.set_active b (TaskImpl.with_wait_count n s))
  = (fst (fst (TaskImpl.resume s)),
     TaskImpl.set_active b (TaskImpl.with_wait_count n (snd (fst (TaskImpl.resume s)))),
     snd (TaskImpl.resume s)).
Proof.
  unfold TaskImpl.resume, TaskImpl.call.
  change (TaskImpl.coroutine_ (TaskImpl.set_active b (TaskImpl.with_wait_count n s)))
    with (TaskImpl.coroutine_ s).
  change (TaskImpl.pending_cancel_ (TaskImpl.set_active b (TaskImpl.with_wait_count n s)))
    with (TaskImpl.pending_cancel_ s).
  destruct (TaskImpl.coroutine_ s) as [ | c | c | k h | ]; try reflexivity.
  - apply (run_blind n b c s).
  - destruct (TaskImpl.pending_cancel_ s).
    + change (TaskImpl.with_pending_cancel false
                (TaskImpl.set_active b (TaskImpl.with_wait_count n s)))
        with (TaskImpl.set_active b
                (TaskImpl.with_wait_count n (TaskImpl.with_pending_cancel false s))).
      rewrite run_blind. rewrite !emit_fst, !emit_snd.
      destruct (TaskImpl.run h (TaskImpl.with_pending_cancel false s)) as [[tr s1] evs1].
      reflexivity.
    + apply (run_blind n b k s).
Qed.

(** X19. A cancellation that the callable does not catch ends the task. On
    a task suspended at a [suspend()] around which the callable catches
    nothing, [cancel()] followed by [resume()] throws [Cancelled] into the
    coroutine, runs nothing more of the callable, completes the task with
    that failure in the slot, and uses up the request; [get_result] then
    throws [Cancelled]. *)
Theorem uncaught_cancel_completes (T : Type) `{CppType T}
    (count : Z) (callable : code T) (s0 : TaskImpl.t T) (count' : Z)
    (evs0 : list (event T)) (ops : list Driver.op) (k : code T) :
  TaskImpl.create count callable = Value (s0, count', evs0) ->
  let m := Driver.exec ops (Driver.start s0 evs0) in
  Driver.halted m = None ->
  TaskImpl.coroutine_ (Driver.task m) = InSuspend k (Throw Cancelled) ->
  let m' := Driver.exec [Driver.Cancel; Driver.Resume] m in
  Driver.trace m' = Driver.trace m ++ [CancelledThrown; CallableThrew Cancelled] /\
  Driver.halted m' = None /\
  TaskImpl.is_complete (Driver.task m') = true /\
  TaskImpl.pending_cancel_ (Driver.task m') = false /\
  fst (TaskImpl.get_result (Driver.task m')) = Throws Cancelled.
Proof.
  intros Hc m Hrun Hk m'. apply create_inv in Hc. destruct Hc as (-> & _ & ->).
  pose proof (exec_lifecycle ops (constructed_lifecycle (count + 1) callable)) as L.
  fold m in L.
  assert (Hr : TaskImpl.result_ (Driver.task m) = ResultHolder.empty).
  { destruct L as [Hn Hr Hx | v Hc Hr Hx | e Hc Hs Hr Hx | e Hn Hh Hs Hr Hx];
      try exact Hr; rewrite Hc in Hk; discriminate. }
  assert (E : m' = {| Driver.task :=
                        TaskImpl.with_coroutine Complete
                          (TaskImpl.with_result (failure_slot Cancelled)
                             (TaskImpl.with_pending_cancel false (Driver.task m)));
                      Driver.trace :=
                        Driver.trace m ++ [CancelledThrown; CallableThrew Cancelled];
                      Driver.halted := None |}).
  { subst m'. cbn [Driver.exec fold_left]. unfold Driver.step at 2. rewrite Hrun.
    unfold Driver.step. cbn [Driver.halted Driver.task Driver.trace].
    unfold TaskImpl.resume, TaskImpl.call, TaskImpl.cancel.
    change (TaskImpl.coroutine_ (TaskImpl.with_pending_cancel true (Driver.task m)))
      with (TaskImpl.coroutine_ (Driver.task m)).
    rewrite Hk. cbn [TaskImpl.with_pending_cancel TaskImpl.pending_cancel_ TaskImpl.run].
    unfold TaskImpl.top_frame. cbn [is_std_exception TaskImpl.result_].
    change (TaskImpl.result_
              (TaskImpl.with_pending_cancel false
                 (TaskImpl.with_pending_cancel true (Driver.task m))))
      with (TaskImpl.result_ (Driver.task m)).
    rewrite Hr. reflexivity. }
  rewrite E. repeat split.
Qed.

(** The statement above at a task suspended in its first yield. *)
Lemma uncaught_cancel_completes_witness :
  let m := Driver.exec [Driver.Resume]
             (Driver.start (constructed 1 Samples.yield_once) []) in
  let m' := Driver.exec [Driver.Cancel; Driver.Resume] m in
  Driver.trace m' = Driver.trace m ++ [CancelledThrown; CallableThrew Cancelled] /\
  Driver.halted m' = None /\
  TaskImpl.is_complete (Driver.task m') = true /\
  TaskImpl.pending_cancel_ (Driver.task m') = false /\
  fst (TaskImpl.get_result (Driver.task m')) = Throws Cancelled.
Proof.
  exact (@uncaught_cancel_completes Z _ 0 Samples.yield_once
           (constructed 1 Samples.yield_once) 1 [] [Driver.Resume] (Emit 2 (Return 7))
           eq_refl eq_refl eq_refl).
Defined.
